(** * pwm-gpio: a software PWM channel on one GPIO line, driven by an hrtimer

    Shallow embedding of [pwm-gpio.c].  The driver functions are written as
    programs over the primitive actions they perform on [struct gpio_pwm_data]
    (field accesses, the mutex, the GPIO line, the hrtimer); a sequential
    interpreter runs one call to completion and records the actions it took,
    and a small interleaving semantics lets tasks and the timer interrupt
    take those actions one at a time. *)

From Stdlib Require Import ZArith List Bool Lia.
Import ListNotations.
Open Scope Z_scope.

(** ** C integers *)

(** [unsigned int] is 32 bits wide; storing an [int] into an
    [unsigned int] field reduces it modulo 2^32. *)
Definition UINT_MOD : Z := 2 ^ 32.
Definition INT_MIN : Z := - 2 ^ 31.
Definition INT_MAX : Z := 2 ^ 31 - 1.

Definition to_uint (z : Z) : Z := z mod UINT_MOD.

(** Two's complement wrap into the range of [int] (the kernel is built with
    wrapping signed arithmetic). *)
Definition to_int (z : Z) : Z := (z + 2 ^ 31) mod UINT_MOD - 2 ^ 31.

Definition int_sub (a b : Z) : Z := to_int (a - b).

Definition is_int (z : Z) : Prop := INT_MIN <= z <= INT_MAX.
Definition is_uint (z : Z) : Prop := 0 <= z < UINT_MOD.

Definition EBUSY : Z := 16.
Definition ENOMEM : Z := 12.

(** ** Kernel types used by the driver *)

Inductive hrtimer_restart := HRTIMER_NORESTART | HRTIMER_RESTART.

Inductive pwm_polarity := PWM_POLARITY_NORMAL | PWM_POLARITY_INVERSED.

Definition pwm_polarity_eqb (a b : pwm_polarity) : bool :=
  match a, b with
  | PWM_POLARITY_NORMAL, PWM_POLARITY_NORMAL => true
  | PWM_POLARITY_INVERSED, PWM_POLARITY_INVERSED => true
  | _, _ => false
  end.

(** Who is executing: a task (process context) or the hrtimer interrupt. *)
Inductive context := Task (id : nat) | HardIrq.

(** [ktime_t] values are nanoseconds on CLOCK_MONOTONIC.  They are kept as
    mathematical integers: the signed 64-bit range is out of reach of any
    uptime. *)
Definition ktime := Z.

Definition ns_to_ktime (ns : Z) : ktime := ns.
Definition ktime_set (secs nsecs : Z) : ktime := secs * 1000000000 + nsecs.

(** [struct hrtimer], reduced to what the driver depends on: the absolute
    expiry, whether the timer sits in the queue (HRTIMER_STATE_ENQUEUED), and
    the clock base it was initialised on (its current time and its
    resolution, [hrtimer_resolution]). *)
Record hrtimer := mk_hrtimer {
  expires : ktime;
  enqueued : bool;
  base_time : ktime;
  base_resolution : ktime
}.

(** [struct gpio_pwm_data].  [lock] holds the owner of the mutex, if any;
    [gpio_pwm] stands for the line behind the descriptor and holds the
    logical value last driven onto it. *)
Record gpio_pwm_data := mk_gpio_pwm_data {
  is_running : bool;
  polarity : bool;
  pin_on : bool;
  on_time : Z;
  off_time : Z;
  lock : option context;
  timer : hrtimer;
  gpio_pwm : Z
}.

Definition set_is_running (v : bool) (d : gpio_pwm_data) : gpio_pwm_data :=
  mk_gpio_pwm_data v (polarity d) (pin_on d) (on_time d) (off_time d)
    (lock d) (timer d) (gpio_pwm d).
Definition set_polarity (v : bool) (d : gpio_pwm_data) : gpio_pwm_data :=
  mk_gpio_pwm_data (is_running d) v (pin_on d) (on_time d) (off_time d)
    (lock d) (timer d) (gpio_pwm d).
Definition set_pin_on (v : bool) (d : gpio_pwm_data) : gpio_pwm_data :=
  mk_gpio_pwm_data (is_running d) (polarity d) v (on_time d) (off_time d)
    (lock d) (timer d) (gpio_pwm d).
Definition set_on_time (v : Z) (d : gpio_pwm_data) : gpio_pwm_data :=
  mk_gpio_pwm_data (is_running d) (polarity d) (pin_on d) v (off_time d)
    (lock d) (timer d) (gpio_pwm d).
Definition set_off_time (v : Z) (d : gpio_pwm_data) : gpio_pwm_data :=
  mk_gpio_pwm_data (is_running d) (polarity d) (pin_on d) (on_time d) v
    (lock d) (timer d) (gpio_pwm d).
Definition set_lock (v : option context) (d : gpio_pwm_data) : gpio_pwm_data :=
  mk_gpio_pwm_data (is_running d) (polarity d) (pin_on d) (on_time d)
    (off_time d) v (timer d) (gpio_pwm d).
Definition set_timer (v : hrtimer) (d : gpio_pwm_data) : gpio_pwm_data :=
  mk_gpio_pwm_data (is_running d) (polarity d) (pin_on d) (on_time d)
    (off_time d) (lock d) v (gpio_pwm d).
Definition set_gpio_pwm (v : Z) (d : gpio_pwm_data) : gpio_pwm_data :=
  mk_gpio_pwm_data (is_running d) (polarity d) (pin_on d) (on_time d)
    (off_time d) (lock d) (timer d) v.

(** ** The hrtimer API, as the kernel implements it (kernel/time/hrtimer.c)

    These functions belong to the kernel, not to the driver; the driver's
    behaviour in time is whatever they make of its calls. *)

(** [hrtimer_start(timer, tim, HRTIMER_MODE_REL)]: (re)queue the timer to
    expire [tim] after the current time of its base. *)
Definition hrtimer_start (tim : ktime) (t : hrtimer) : hrtimer :=
  mk_hrtimer (base_time t + tim) true (base_time t) (base_resolution t).

(** [hrtimer_cancel]: take the timer out of the queue; the result tells
    whether it was queued. *)
Definition hrtimer_cancel (t : hrtimer) : Z * hrtimer :=
  (if enqueued t then 1 else 0,
   mk_hrtimer (expires t) false (base_time t) (base_resolution t)).

(** [hrtimer_forward(timer, now, interval)]: push the expiry of a timer that
    is not queued past [now] in whole multiples of [interval], counted from
    the old expiry; the result is the number of intervals added. *)
Definition hrtimer_forward (now interval : ktime) (t : hrtimer) : Z * hrtimer :=
  let delta := now - expires t in
  if delta <? 0 then (0, t)
  else if enqueued t then (0, t)
  else
    let interval := if interval <? base_resolution t
                    then base_resolution t else interval in
    let set e := mk_hrtimer e (enqueued t) (base_time t) (base_resolution t) in
    if interval <=? delta then
      let orun := delta / interval in
      let e1 := expires t + interval * orun in
      if now <? e1 then (orun, set e1)
      else (orun + 1, set (e1 + interval))
    else (1, set (expires t + interval)).

(** [hrtimer_forward_now]: forward from the current time of the base. *)
Definition hrtimer_forward_now (interval : ktime) (t : hrtimer) : Z * hrtimer :=
  hrtimer_forward (base_time t) interval t.

(** [hrtimer_init]: an inactive timer on the given clock base. *)
Definition hrtimer_init (now resolution : ktime) (t : hrtimer) : hrtimer :=
  mk_hrtimer (expires t) false now resolution.

(** ** Primitive actions and programs *)

Inductive bfield := IS_RUNNING | POLARITY | PIN_ON.
Inductive ufield := ON_TIME | OFF_TIME.

Inductive cmd :=
| MutexLock
| MutexUnlock
| LoadB (f : bfield)
| StoreB (f : bfield) (v : bool)
| LoadU (f : ufield)
| StoreU (f : ufield) (v : Z)
| GpiodSetValue (v : Z)
| HrtimerStart (tim : ktime)
| HrtimerCancel
| HrtimerForwardNow (interval : ktime).

(** What an action hands back to the program. *)
Definition reply (c : cmd) : Type :=
  match c with
  | LoadB _ => bool
  | LoadU _ => Z
  | HrtimerCancel => Z
  | HrtimerForwardNow _ => Z
  | _ => unit
  end.

Inductive prog (R : Type) : Type :=
| Ret (r : R)
| Vis (c : cmd) (k : reply c -> prog R).

Arguments Ret {R} r.
Arguments Vis {R} c k.

Fixpoint bind {A B : Type} (p : prog A) (f : A -> prog B) : prog B :=
  match p with
  | Ret a => f a
  | Vis c k => Vis c (fun x => bind (k x) f)
  end.

Definition act (c : cmd) : prog (reply c) := Vis c Ret.

Declare Scope prog_scope.
Delimit Scope prog_scope with prog.
Notation "x <- p ;; q" := (bind p (fun x => q))
  (at level 61, p at next level, right associativity) : prog_scope.
Notation "p ;; q" := (bind p (fun _ => q))
  (at level 61, right associativity) : prog_scope.
Open Scope prog_scope.

Definition load_b (f : bfield) (d : gpio_pwm_data) : bool :=
  match f with
  | IS_RUNNING => is_running d
  | POLARITY => polarity d
  | PIN_ON => pin_on d
  end.

Definition store_b (f : bfield) (v : bool) (d : gpio_pwm_data) : gpio_pwm_data :=
  match f with
  | IS_RUNNING => set_is_running v d
  | POLARITY => set_polarity v d
  | PIN_ON => set_pin_on v d
  end.

Definition load_u (f : ufield) (d : gpio_pwm_data) : Z :=
  match f with
  | ON_TIME => on_time d
  | OFF_TIME => off_time d
  end.

Definition store_u (f : ufield) (v : Z) (d : gpio_pwm_data) : gpio_pwm_data :=
  match f with
  | ON_TIME => set_on_time v d
  | OFF_TIME => set_off_time v d
  end.

(** One action by [cur] on the shared record.  [mutex_lock] on a held mutex
    does not complete ([None]): the caller waits. *)
Definition exec (cur : context) (c : cmd) (d : gpio_pwm_data)
  : option (reply c * gpio_pwm_data) :=
  match c return option (reply c * gpio_pwm_data) with
  | MutexLock =>
      match lock d with
      | None => Some (tt, set_lock (Some cur) d)
      | Some _ => None
      end
  | MutexUnlock => Some (tt, set_lock None d)
  | LoadB f => Some (load_b f d, d)
  | StoreB f v => Some (tt, store_b f v d)
  | LoadU f => Some (load_u f d, d)
  | StoreU f v => Some (tt, store_u f v d)
  | GpiodSetValue v => Some (tt, set_gpio_pwm (if v =? 0 then 0 else 1) d)
  | HrtimerStart tim => Some (tt, set_timer (hrtimer_start tim (timer d)) d)
  | HrtimerCancel =>
      let '(r, t) := hrtimer_cancel (timer d) in Some (r, set_timer t d)
  | HrtimerForwardNow iv =>
      let '(r, t) := hrtimer_forward_now iv (timer d) in Some (r, set_timer t d)
  end.

(** Run a whole call without interruption; the result carries the return
    value, the record afterwards and the actions taken, in order. *)
Fixpoint run {R : Type} (cur : context) (p : prog R) (d : gpio_pwm_data)
  : option (R * gpio_pwm_data * list cmd) :=
  match p with
  | Ret r => Some (r, d, [])
  | Vis c k =>
      match exec cur c d with
      | None => None
      | Some (a, d1) =>
          match run cur (k a) d1 with
          | None => None
          | Some (r, d2, tr) => Some (r, d2, c :: tr)
          end
      end
  end.

(** ** The driver *)

Definition gpio_pwm_off : prog unit :=
  pol <- act (LoadB POLARITY) ;;
  act (GpiodSetValue (if pol then 1 else 0)) ;;
  act (StoreB PIN_ON false).

Definition gpio_pwm_on : prog unit :=
  pol <- act (LoadB POLARITY) ;;
  act (GpiodSetValue (if pol then 0 else 1)) ;;
  act (StoreB PIN_ON true).

Definition gpio_pwm_timer : prog hrtimer_restart :=
  on <- act (LoadB PIN_ON) ;;
  (if negb on then
     gpio_pwm_on ;;
     t <- act (LoadU ON_TIME) ;;
     act (HrtimerForwardNow (ns_to_ktime t))
   else
     gpio_pwm_off ;;
     t <- act (LoadU OFF_TIME) ;;
     act (HrtimerForwardNow (ns_to_ktime t))) ;;
  Ret HRTIMER_RESTART.

Definition gpio_pwm_config (duty_ns period_ns : Z) : prog Z :=
  act MutexLock ;;
  act (StoreU ON_TIME (to_uint duty_ns)) ;;
  act (StoreU OFF_TIME (to_uint (int_sub period_ns duty_ns))) ;;
  act MutexUnlock ;;
  Ret 0.

Definition gpio_pwm_set_polarity (pol : pwm_polarity) : prog Z :=
  act MutexLock ;;
  act (StoreB POLARITY
         (if negb (pwm_polarity_eqb pol PWM_POLARITY_NORMAL)
          then true else false)) ;;
  act MutexUnlock ;;
  Ret 0.

Definition gpio_pwm_enable : prog Z :=
  act MutexLock ;;
  r <- act (LoadB IS_RUNNING) ;;
  if r then
    act MutexUnlock ;;
    Ret (- EBUSY)
  else
    act (StoreB IS_RUNNING true) ;;
    act (HrtimerStart (ktime_set 0 0)) ;;
    act MutexUnlock ;;
    Ret 0.

Definition gpio_pwm_disable : prog unit :=
  act MutexLock ;;
  r <- act (LoadB IS_RUNNING) ;;
  if negb r then
    act MutexUnlock ;;
    Ret tt
  else
    act HrtimerCancel ;;
    gpio_pwm_off ;;
    act (StoreB IS_RUNNING false) ;;
    act MutexUnlock ;;
    Ret tt.

(** ** Timer expiry, as the kernel dispatches it *)

Definition set_enqueued (v : bool) (t : hrtimer) : hrtimer :=
  mk_hrtimer (expires t) v (base_time t) (base_resolution t).

(** The timer is queued and its expiry has been reached. *)
Definition hrtimer_due (d : gpio_pwm_data) : bool :=
  enqueued (timer d) && (expires (timer d) <=? base_time (timer d)).

(** The kernel's [__run_hrtimer]: the expired timer leaves the queue, its
    callback runs in interrupt context, and the timer is queued again when
    the callback answers HRTIMER_RESTART. *)
Definition run_hrtimer (fn : prog hrtimer_restart) (d : gpio_pwm_data)
  : option (gpio_pwm_data * list cmd) :=
  if hrtimer_due d then
    match run HardIrq fn (set_timer (set_enqueued false (timer d)) d) with
    | Some (HRTIMER_RESTART, d1, tr) =>
        Some (set_timer (set_enqueued true (timer d1)) d1, tr)
    | Some (HRTIMER_NORESTART, d1, tr) => Some (d1, tr)
    | None => None
    end
  else None.

(** One firing of the channel's timer ([timer.function = &gpio_pwm_timer]). *)
Definition timer_fire (d : gpio_pwm_data) : option (gpio_pwm_data * list cmd) :=
  run_hrtimer gpio_pwm_timer d.

(** CLOCK_MONOTONIC moves forward by [dt]. *)
Definition advance (dt : ktime) (d : gpio_pwm_data) : gpio_pwm_data :=
  set_timer (mk_hrtimer (expires (timer d)) (enqueued (timer d))
               (base_time (timer d) + dt) (base_resolution (timer d))) d.

(** The clock reads [now]. *)
Definition at_time (now : ktime) (d : gpio_pwm_data) : gpio_pwm_data :=
  set_timer (mk_hrtimer (expires (timer d)) (enqueued (timer d))
               now (base_resolution (timer d))) d.

(** ** The operations of [gpio_pwm_ops] on an acquired channel *)

Inductive pwm_op :=
| OpConfig (duty_ns period_ns : Z)
| OpSetPolarity (pol : pwm_polarity)
| OpEnable
| OpDisable.

Definition pwm_call (o : pwm_op) : prog Z :=
  match o with
  | OpConfig duty_ns period_ns => gpio_pwm_config duty_ns period_ns
  | OpSetPolarity pol => gpio_pwm_set_polarity pol
  | OpEnable => gpio_pwm_enable
  | OpDisable => gpio_pwm_disable ;; Ret 0
  end.

(** The pin levels of the two phases. *)
Definition active_level (d : gpio_pwm_data) : Z := if polarity d then 0 else 1.
Definition inactive_level (d : gpio_pwm_data) : Z := if polarity d then 1 else 0.

(** ** Acquiring and releasing the channel *)

Inductive log_msg := ERR_NO_PWM_GPIO | WARN_NO_HRES.

(** What the kernel holds on behalf of the channel: the records handed out
    by [kzalloc] and not yet given to [kfree], whether the "pwm" line is
    claimed, the chip data attached to the pwm device, and the log. *)
Record kernel := mk_kernel {
  kmem_live : nat;
  gpio_claimed : bool;
  chip_data : option gpio_pwm_data;
  dmesg : list log_msg
}.

(** Error pointers: [gpiod_get] answers with the address of a descriptor or
    with ERR_PTR(-errno), an address in the last 4095 of the address space;
    addresses are read here as signed numbers. *)
Definition MAX_ERRNO : Z := 4095.
Definition IS_ERR (ptr : Z) : bool := (- MAX_ERRNO <=? ptr) && (ptr <? 0).
Definition PTR_ERR (ptr : Z) : Z := ptr.

(** What the environment decides during [request]: whether [kzalloc] finds
    memory, what [gpiod_get] answers, and the clock the timer is set up
    on. *)
Record request_env := mk_request_env {
  kzalloc_ok : bool;
  gpiod_get : Z;
  hres_active : bool;
  clock_now : ktime;
  clock_resolution : ktime
}.

(** The record as [kzalloc] returns it: all bytes zero.  The driver does not
    initialise the mutex any further; the zeroed mutex is read as
    unlocked. *)
Definition zeroed : gpio_pwm_data :=
  mk_gpio_pwm_data false false false 0 0 None (mk_hrtimer 0 false 0 0) 0.

Definition kzalloc (env : request_env) (k : kernel)
  : option (gpio_pwm_data * kernel) :=
  if kzalloc_ok env
  then Some (zeroed,
             mk_kernel (S (kmem_live k)) (gpio_claimed k) (chip_data k) (dmesg k))
  else None.

Definition kfree (k : kernel) : kernel :=
  mk_kernel (Nat.pred (kmem_live k)) (gpio_claimed k) (chip_data k) (dmesg k).

Definition gpiod_put (k : kernel) : kernel :=
  mk_kernel (kmem_live k) false (chip_data k) (dmesg k).

Definition printk (m : log_msg) (k : kernel) : kernel :=
  mk_kernel (kmem_live k) (gpio_claimed k) (chip_data k) (dmesg k ++ [m]).

Definition pwm_set_chip_data (d : gpio_pwm_data) (k : kernel) : Z * kernel :=
  (0, mk_kernel (kmem_live k) (gpio_claimed k) (Some d) (dmesg k)).

Definition gpio_pwm_request (env : request_env) (k : kernel) : Z * kernel :=
  match kzalloc env k with
  | None => (- ENOMEM, k)
  | Some (gpio_data, k1) =>
      let gpio_pwm := gpiod_get env in
      if IS_ERR gpio_pwm then
        (PTR_ERR gpio_pwm, printk ERR_NO_PWM_GPIO k1)
      else
        (* GPIOD_OUT_LOW: the line is claimed as an output driven low *)
        let k2 := mk_kernel (kmem_live k1) true (chip_data k1) (dmesg k1) in
        let gpio_data :=
          set_timer (hrtimer_init (clock_now env) (clock_resolution env)
                       (timer gpio_data)) gpio_data in
        let k3 := if negb (hres_active env)
                  then printk WARN_NO_HRES k2 else k2 in
        (* timer.function = &gpio_pwm_timer: see [timer_fire] below *)
        let gpio_data := set_gpio_pwm 0 gpio_data in
        let gpio_data := set_pin_on false gpio_data in
        let gpio_data := set_is_running false gpio_data in
        pwm_set_chip_data gpio_data k3
  end.

(** [free] disables the channel, gives the line back and frees the record;
    the chip data no longer designates anything. *)
Definition gpio_pwm_free (cur : context) (k : kernel) : option kernel :=
  match chip_data k with
  | None => None
  | Some gpio_data =>
      match run cur gpio_pwm_disable gpio_data with
      | None => None
      | Some (_, _, _) =>
          let k1 := gpiod_put k in
          let k2 := kfree k1 in
          Some (mk_kernel (kmem_live k2) (gpio_claimed k2) None (dmesg k2))
      end
  end.

(** ** The channel seen one whole operation at a time *)

(** One step of the channel: a call of an operation by some task, a firing
    of the timer, or the passing of time. *)
Inductive op_step : gpio_pwm_data -> gpio_pwm_data -> Prop :=
| op_step_call cur o d r d' tr :
    run cur (pwm_call o) d = Some (r, d', tr) -> op_step d d'
| op_step_fire d d' tr :
    timer_fire d = Some (d', tr) -> op_step d d'
| op_step_tick dt d :
    0 <= dt -> op_step d (advance dt d).

(** The states of a channel: what a successful [request] attaches to the
    pwm device, and whatever the steps above make of it. *)
Inductive reachable : gpio_pwm_data -> Prop :=
| reachable_request env k k' d :
    gpio_pwm_request env k = (0, k') -> chip_data k' = Some d -> reachable d
| reachable_step d d' :
    reachable d -> op_step d d' -> reachable d'.

(** Steps that are not a successful start of the engine: everything except
    a call of enable. *)
Inductive quiet_step : gpio_pwm_data -> gpio_pwm_data -> Prop :=
| quiet_call cur o d r d' tr :
    o <> OpEnable ->
    run cur (pwm_call o) d = Some (r, d', tr) -> quiet_step d d'
| quiet_fire d d' tr :
    timer_fire d = Some (d', tr) -> quiet_step d d'
| quiet_tick dt d :
    0 <= dt -> quiet_step d (advance dt d).

Inductive quiet_steps : gpio_pwm_data -> gpio_pwm_data -> Prop :=
| quiet_refl d : quiet_steps d d
| quiet_trans d d1 d2 :
    quiet_steps d d1 -> quiet_step d1 d2 -> quiet_steps d d2.

(** ** Phase boundaries over consecutive firings *)

(** The timer fires [l] after each expected expiry, for the latencies [l]
    in turn; the result lists the times of the firings. *)
Fixpoint boundaries (lats : list ktime) (d : gpio_pwm_data) : list ktime :=
  match lats with
  | [] => []
  | l :: rest =>
      let d1 := at_time (expires (timer d) + l) d in
      match timer_fire d1 with
      | Some (d2, _) => base_time (timer d1) :: boundaries rest d2
      | None => []
      end
  end.

(** Where the [k]-th boundary falls when every phase lasts exactly its
    configured time, starting from expiry [e] in phase [asserted]. *)
Fixpoint ideal_boundary (e on off : Z) (asserted : bool) (k : nat) : Z :=
  match k with
  | O => e
  | S k' =>
      ideal_boundary (e + (if asserted then off else on)) on off
        (negb asserted) k'
  end.

(** ** Tasks and the timer interrupt, one action at a time *)

(** Actions other than taking or releasing the mutex: these are the ones
    that read or write the record, the line or the timer. *)
Definition is_access (c : cmd) : bool :=
  match c with
  | MutexLock | MutexUnlock => false
  | _ => true
  end.

(** A program that never touches the mutex. *)
Fixpoint lockless {R : Type} (p : prog R) : Prop :=
  match p with
  | Ret _ => True
  | Vis c k => is_access c = true /\ forall a, lockless (k a)
  end.

(** The rest of a critical section: accesses only, then [mutex_unlock],
    then return. *)
Fixpoint inside {R : Type} (p : prog R) : Prop :=
  match p with
  | Ret _ => False
  | Vis c k =>
      (is_access c = true /\ forall a, inside (k a)) \/
      (c = MutexUnlock /\ exists r, forall a, k a = Ret r)
  end.

(** A call that does all of its work between [mutex_lock] and
    [mutex_unlock]. *)
Definition bracketed {R : Type} (p : prog R) : Prop :=
  match p with
  | Ret _ => False
  | Vis c k => c = MutexLock /\ forall a, inside (k a)
  end.

Definition idle {R : Type} (p : prog R) : Prop :=
  match p with
  | Ret _ => True
  | Vis _ _ => False
  end.

Fixpoint set_nth {A : Type} (i : nat) (x : A) (l : list A) : list A :=
  match l, i with
  | [], _ => []
  | _ :: l', O => x :: l'
  | y :: l', S i' => y :: set_nth i' x l'
  end.

(** The record, what is left of the call each task is in, and what is left
    of the timer callback when one is in progress. *)
Record config := mk_config {
  shared : gpio_pwm_data;
  tasks : list (prog Z);
  irq : option (prog hrtimer_restart)
}.

(** [hrtimer_cancel] waits for a running callback to finish. *)
Definition may_proceed (c : cmd) (cfg : config) : Prop :=
  c = HrtimerCancel -> irq cfg = None.

Inductive step : config -> config -> Prop :=
| step_task i c k a d' cfg :
    nth_error (tasks cfg) i = Some (Vis c k) ->
    may_proceed c cfg ->
    exec (Task i) c (shared cfg) = Some (a, d') ->
    step cfg (mk_config d' (set_nth i (k a) (tasks cfg)) (irq cfg))
| step_call i r o cfg :
    nth_error (tasks cfg) i = Some (Ret r) ->
    step cfg (mk_config (shared cfg) (set_nth i (pwm_call o) (tasks cfg))
                (irq cfg))
| step_irq_enter cfg :
    irq cfg = None ->
    hrtimer_due (shared cfg) = true ->
    step cfg (mk_config
                (set_timer (set_enqueued false (timer (shared cfg)))
                   (shared cfg))
                (tasks cfg) (Some gpio_pwm_timer))
| step_irq c k a d' cfg :
    irq cfg = Some (Vis c k) ->
    exec HardIrq c (shared cfg) = Some (a, d') ->
    step cfg (mk_config d' (tasks cfg) (Some (k a)))
| step_irq_exit r cfg :
    irq cfg = Some (Ret r) ->
    step cfg (mk_config
                (match r with
                 | HRTIMER_RESTART =>
                     set_timer (set_enqueued true (timer (shared cfg)))
                       (shared cfg)
                 | HRTIMER_NORESTART => shared cfg
                 end)
                (tasks cfg) None)
| step_tick dt cfg :
    0 <= dt ->
    step cfg (mk_config (advance dt (shared cfg)) (tasks cfg) (irq cfg)).

Inductive steps : config -> config -> Prop :=
| steps_refl cfg : steps cfg cfg
| steps_trans cfg cfg1 cfg2 :
    steps cfg cfg1 -> step cfg1 cfg2 -> steps cfg cfg2.

(** [n] tasks, none of them inside a call, and no callback in progress. *)
Definition init_config (d : gpio_pwm_data) (n : nat) : config :=
  mk_config d (repeat (Ret 0) n) None.

(** Task [i] is about to read or write the record. *)
Definition task_at_access (cfg : config) (i : nat) : Prop :=
  exists c k, nth_error (tasks cfg) i = Some (Vis c k) /\ is_access c = true.

(** The timer callback is about to read or write the record. *)
Definition irq_at_access (cfg : config) : Prop :=
  exists c k, irq cfg = Some (Vis c k) /\ is_access c = true.

(** ** Notions used to state the properties *)

(** The time the callback hands to [hrtimer_forward_now] at a firing, and
    the level it drives: those of the phase the firing begins. *)
Definition phase_interval (d : gpio_pwm_data) : Z :=
  if pin_on d then off_time d else on_time d.

Definition phase_level (d : gpio_pwm_data) : Z :=
  if pin_on d then inactive_level d else active_level d.

(** How long after its expected expiry the timer is being served. *)
Definition latency (d : gpio_pwm_data) : ktime :=
  base_time (timer d) - expires (timer d).

(** The interval the kernel really forwards by: never below the
    resolution of the clock base. *)
Definition effective_interval (d : gpio_pwm_data) : ktime :=
  Z.max (phase_interval d) (base_resolution (timer d)).

(** The record a successful [request] attaches to the pwm device. *)
Definition fresh (now resolution : ktime) : gpio_pwm_data :=
  mk_gpio_pwm_data false false false 0 0 None
    (mk_hrtimer 0 false now resolution) 0.

(** A channel configured for 3 ms in every 10 ms at time 100, before and
    after enable. *)
Definition example_stopped : gpio_pwm_data :=
  set_off_time 7000000 (set_on_time 3000000 (fresh 100 1)).

Definition example_started : gpio_pwm_data :=
  set_timer (hrtimer_start 0 (timer example_stopped))
    (set_is_running true example_stopped).

(** The started channel with 3 ns on and 7 ns off, its first firing served
    10 ns late; and with a duty of zero. *)
Definition example_late : gpio_pwm_data :=
  at_time 110 (set_off_time 7 (set_on_time 3 example_started)).

Definition example_zero_duty : gpio_pwm_data :=
  set_off_time 10 (set_on_time 0 example_started).

(** A configuration in which task 0 has entered configure and holds the
    mutex while the timer callback has begun. *)
Definition example_race : config :=
  mk_config
    (set_timer (set_enqueued false (timer example_started))
       (set_lock (Some (Task 0%nat)) example_started))
    [act (StoreU ON_TIME (to_uint 5)) ;;
     act (StoreU OFF_TIME (to_uint (int_sub 10 5))) ;;
     act MutexUnlock ;;
     Ret 0]
    (Some gpio_pwm_timer).

(** What the mutex promises about one task: it owns the mutex and is
    inside its critical section, or it does not own it and is between
    calls or about to lock. *)
Definition task_ok (d : gpio_pwm_data) (i : nat) (p : prog Z) : Prop :=
  (lock d = Some (Task i) /\ inside p) \/
  (lock d <> Some (Task i) /\ (idle p \/ bracketed p)).

Definition mutex_inv (cfg : config) : Prop :=
  (forall i p, nth_error (tasks cfg) i = Some p -> task_ok (shared cfg) i p) /\
  (forall p, irq cfg = Some p -> lockless p).

(** The callback of the started channel has begun; no task is in a call. *)
Definition example_firing : config :=
  mk_config (set_timer (set_enqueued false (timer example_started))
               example_started)
    [Ret 0] (Some gpio_pwm_timer).

(** Task 0 has entered configure and holds the mutex. *)
Definition example_locked : config :=
  mk_config (set_lock (Some (Task 0%nat)) example_started)
    (tasks example_race) None.

(** The kernel's [hrtimer_active]: the timer is queued or its callback is
    in progress. *)
Definition timer_active (d : gpio_pwm_data) (in_callback : bool) : bool :=
  enqueued (timer d) || in_callback.

Definition in_callback (cfg : config) : bool :=
  match irq cfg with
  | Some _ => true
  | None => false
  end.

(** What holds whenever no task is inside a critical section. *)
Definition settled (d : gpio_pwm_data) (b : bool) : Prop :=
  is_running d = timer_active d b.

(** What the timer interrupt and the clock may change behind the back of a
    task that holds the mutex: neither is_running nor whether the timer is
    active. *)
Definition rely (d : gpio_pwm_data) (b : bool)
                (d' : gpio_pwm_data) (b' : bool) : Prop :=
  is_running d' = is_running d /\ timer_active d' b' = timer_active d b.

(** The rest of a critical section re-establishes [settled] by the time it
    unlocks, whatever the interrupt does in between. *)
Fixpoint cs_safe (cur : context) (p : prog Z) (d : gpio_pwm_data) (b : bool)
  : Prop :=
  match p with
  | Ret _ => False
  | Vis c k =>
      (is_access c = true /\
       forall d1 b1,
         rely d b d1 b1 -> (c = HrtimerCancel -> b1 = false) ->
         forall a d2,
           exec cur c d1 = Some (a, d2) -> cs_safe cur (k a) d2 b1) \/
      (c = MutexUnlock /\ (exists r, forall a, k a = Ret r) /\
       forall d1 b1, rely d b d1 b1 -> settled d1 b1)
  end.

Definition entry_safe (p : prog Z) : Prop :=
  match p with
  | Ret _ => True
  | Vis c k =>
      c = MutexLock /\
      forall cur d b a, settled d b -> cs_safe cur (k a) d b
  end.

(** The actions of the callback, and a callback that takes only those and
    asks to be restarted. *)
Definition irq_cmd (c : cmd) : bool :=
  match c with
  | LoadB _ | LoadU _ | GpiodSetValue _ | HrtimerForwardNow _ => true
  | StoreB PIN_ON _ => true
  | _ => false
  end.

Fixpoint irq_ok (p : prog hrtimer_restart) : Prop :=
  match p with
  | Ret r => r = HRTIMER_RESTART
  | Vis c k => irq_cmd c = true /\ forall a, irq_ok (k a)
  end.

Definition race_inv (cfg : config) : Prop :=
  (forall p, irq cfg = Some p -> irq_ok p) /\
  match lock (shared cfg) with
  | None =>
      settled (shared cfg) (in_callback cfg) /\
      forall i p, nth_error (tasks cfg) i = Some p -> entry_safe p
  | Some (Task i) =>
      (exists p, nth_error (tasks cfg) i = Some p /\
                 cs_safe (Task i) p (shared cfg) (in_callback cfg)) /\
      forall j p, j <> i -> nth_error (tasks cfg) j = Some p -> entry_safe p
  | Some HardIrq => False
  end.

(** The invariant of the channel between operations. *)
Definition chan_inv (d : gpio_pwm_data) : Prop :=
  lock d = None /\
  is_running d = enqueued (timer d) /\
  (is_running d = false -> pin_on d = false).

(** ** Binding the driver to a platform device *)

Definition ENODEV : Z := 19.

Inductive probe_msg := ERR_ADD_CHIP (ret : Z).

(** The operation table a chip carries; the driver has one,
    [gpio_pwm_ops]. *)
Inductive pwm_ops := gpio_pwm_ops.

(** [struct pwm_chip] as the driver fills it in; [chip_dev] names the
    device the chip belongs to. *)
Record pwm_chip := mk_pwm_chip {
  chip_dev : nat;
  chip_ops : pwm_ops;
  chip_base : Z;
  chip_npwm : Z
}.

(** A platform device and what the kernel holds for it: the memory
    obtained through [devm_kzalloc], the driver data, the chips registered
    with the pwm core, and the log. *)
Record platform_device := mk_platform_device {
  pdev_id : nat;
  devm_live : nat;
  drvdata : option pwm_chip;
  pwm_chips : list pwm_chip;
  pdev_log : list probe_msg
}.

(** What the environment decides during [probe] and [remove]. *)
Record probe_env := mk_probe_env {
  devm_kzalloc_ok : bool;
  pwmchip_add_ret : Z;
  pwmchip_remove_ret : Z
}.

(** [pwmchip_add] registers the chip when it answers 0. *)
Definition pwmchip_add (env : probe_env) (chip : pwm_chip)
  (pdev : platform_device) : Z * platform_device :=
  (pwmchip_add_ret env,
   if pwmchip_add_ret env =? 0
   then mk_platform_device (pdev_id pdev) (devm_live pdev) (drvdata pdev)
          (pwm_chips pdev ++ [chip]) (pdev_log pdev)
   else pdev).

(** [pwmchip_remove] takes the chips of the device off the list when it
    answers 0. *)
Definition pwmchip_remove (env : probe_env) (chip : pwm_chip)
  (pdev : platform_device) : Z * platform_device :=
  (pwmchip_remove_ret env,
   if pwmchip_remove_ret env =? 0
   then mk_platform_device (pdev_id pdev) (devm_live pdev) (drvdata pdev)
          (filter (fun c => negb (Nat.eqb (chip_dev c) (chip_dev chip)))
             (pwm_chips pdev))
          (pdev_log pdev)
   else pdev).

Definition gpio_pwm_probe (env : probe_env) (pdev : platform_device)
  : Z * platform_device :=
  if negb (devm_kzalloc_ok env) then (- ENOMEM, pdev)
  else
    let pdev1 := mk_platform_device (pdev_id pdev) (S (devm_live pdev))
                   (drvdata pdev) (pwm_chips pdev) (pdev_log pdev) in
    let gpio_chip := mk_pwm_chip (pdev_id pdev) gpio_pwm_ops (-1) 1 in
    let '(ret, pdev2) := pwmchip_add env gpio_chip pdev1 in
    if ret <? 0 then
      (- ENODEV,
       mk_platform_device (pdev_id pdev2) (devm_live pdev2) (drvdata pdev2)
         (pwm_chips pdev2) (pdev_log pdev2 ++ [ERR_ADD_CHIP ret]))
    else
      (0,
       mk_platform_device (pdev_id pdev2) (devm_live pdev2) (Some gpio_chip)
         (pwm_chips pdev2) (pdev_log pdev2)).

(** [remove] hands the chip kept as driver data to [pwmchip_remove]; there
    is none to hand over ([None]) when [probe] has not succeeded. *)
Definition gpio_pwm_remove (env : probe_env) (pdev : platform_device)
  : option (Z * platform_device) :=
  match drvdata pdev with
  | None => None
  | Some gpio_chip => Some (pwmchip_remove env gpio_chip pdev)
  end.

(** ** Further notions used to state properties *)

(** The levels the line is driven to at consecutive firings, the timer
    being served [l] after each expected expiry for the latencies [l] in
    turn. *)
Fixpoint levels (lats : list ktime) (d : gpio_pwm_data) : list Z :=
  match lats with
  | [] => []
  | l :: rest =>
      match timer_fire (at_time (expires (timer d) + l) d) with
      | Some (d2, _) => gpio_pwm d2 :: levels rest d2
      | None => []
      end
  end.

Definition is_pin_write (c : cmd) : bool :=
  match c with
  | GpiodSetValue _ => true
  | _ => false
  end.

Definition is_timer_start (c : cmd) : bool :=
  match c with
  | HrtimerStart _ => true
  | _ => false
  end.

Definition is_timer_cancel (c : cmd) : bool :=
  match c with
  | HrtimerCancel => true
  | _ => false
  end.

(** The level the line should be at in the phase recorded by [pin_on]. *)
Definition level_of_phase (d : gpio_pwm_data) : Z :=
  if pin_on d then active_level d else inactive_level d.

(** The polarity other than the one in force. *)
Definition other_polarity (d : gpio_pwm_data) : pwm_polarity :=
  if polarity d then PWM_POLARITY_NORMAL else PWM_POLARITY_INVERSED.

(** The same environment with or without high-resolution timers. *)
Definition with_hres (b : bool) (env : request_env) : request_env :=
  mk_request_env (kzalloc_ok env) (gpiod_get env) b (clock_now env)
    (clock_resolution env).

(** The kernel with the pwm device's chip data standing for the record in
    its present state. *)
Definition with_chip_data (d : gpio_pwm_data) (k : kernel) : kernel :=
  mk_kernel (kmem_live k) (gpio_claimed k) (Some d) (dmesg k).

(** The states the channel reaches from a given one. *)
Inductive op_steps : gpio_pwm_data -> gpio_pwm_data -> Prop :=
| op_steps_refl d : op_steps d d
| op_steps_trans d d1 d2 :
    op_steps d d1 -> op_step d1 d2 -> op_steps d d2.

(** A program that never writes the line, whatever it is answered. *)
Fixpoint no_pin_write {R : Type} (p : prog R) : Prop :=
  match p with
  | Ret _ => True
  | Vis c k => is_pin_write c = false /\ forall a, no_pin_write (k a)
  end.

(** Task 0 calls enable on the configured, stopped channel; and the same
    task back from that call with 0, the first firing having been served
    in between. *)
Definition example_enable_called : config :=
  mk_config example_stopped [pwm_call OpEnable] None.

Definition example_enable_returned : config :=
  mk_config
    (set_timer (mk_hrtimer 3000100 true 100 1)
       (set_pin_on true (set_gpio_pwm 1 example_started)))
    [Ret 0] None.


(** * Properties *)

(** ** Integer conversions *)

Lemma to_uint_range z : is_uint (to_uint z).
Proof.
  unfold is_uint, to_uint, UINT_MOD. apply Z.mod_pos_bound. reflexivity.
Qed.

Lemma to_uint_small z : is_uint z -> to_uint z = z.
Proof.
  unfold is_uint, to_uint. intros H. apply Z.mod_small. exact H.
Qed.

Lemma to_uint_int_sub a b : to_uint (int_sub a b) = (a - b) mod UINT_MOD.
Proof.
  unfold to_uint, int_sub, to_int.
  rewrite Zminus_mod, Z.mod_mod by (unfold UINT_MOD; lia).
  rewrite <- Zminus_mod.
  f_equal. lia.
Qed.

Lemma int_sub_exact a b : is_int (a - b) -> int_sub a b = a - b.
Proof.
  unfold is_int, INT_MIN, INT_MAX, int_sub, to_int, UINT_MOD. intros H.
  rewrite Z.mod_small; lia.
Qed.

(** ** Single calls, run to completion *)

Arguments hrtimer_forward_now : simpl never.
Arguments hrtimer_forward : simpl never.

Ltac run_call d :=
  destruct d as [r p o a b l [e q n s] g];
  cbn in *; subst; cbn; try reflexivity.

Lemma run_config cur duty_ns period_ns d :
  lock d = None ->
  run cur (gpio_pwm_config duty_ns period_ns) d =
  Some (0,
        set_off_time (to_uint (int_sub period_ns duty_ns))
          (set_on_time (to_uint duty_ns) d),
        [MutexLock; StoreU ON_TIME (to_uint duty_ns);
         StoreU OFF_TIME (to_uint (int_sub period_ns duty_ns)); MutexUnlock]).
Proof. intros H. run_call d. Qed.

Lemma run_set_polarity cur pol d :
  lock d = None ->
  run cur (gpio_pwm_set_polarity pol) d =
  Some (0,
        set_polarity (negb (pwm_polarity_eqb pol PWM_POLARITY_NORMAL)) d,
        [MutexLock;
         StoreB POLARITY (negb (pwm_polarity_eqb pol PWM_POLARITY_NORMAL));
         MutexUnlock]).
Proof. intros H. run_call d; destruct pol; reflexivity. Qed.

Lemma run_enable_busy cur d :
  lock d = None -> is_running d = true ->
  run cur gpio_pwm_enable d =
  Some (- EBUSY, d, [MutexLock; LoadB IS_RUNNING; MutexUnlock]).
Proof. intros H1 H2. run_call d. Qed.

Lemma run_enable_idle cur d :
  lock d = None -> is_running d = false ->
  run cur gpio_pwm_enable d =
  Some (0,
        set_timer (hrtimer_start 0 (timer d)) (set_is_running true d),
        [MutexLock; LoadB IS_RUNNING; StoreB IS_RUNNING true;
         HrtimerStart 0; MutexUnlock]).
Proof. intros H1 H2. run_call d. Qed.

Lemma run_disable_idle cur d :
  lock d = None -> is_running d = false ->
  run cur gpio_pwm_disable d =
  Some (tt, d, [MutexLock; LoadB IS_RUNNING; MutexUnlock]).
Proof. intros H1 H2. run_call d. Qed.

Lemma run_disable_running cur d :
  lock d = None -> is_running d = true ->
  run cur gpio_pwm_disable d =
  Some (tt,
        set_is_running false
          (set_pin_on false
             (set_gpio_pwm (inactive_level d)
                (set_timer (set_enqueued false (timer d)) d))),
        [MutexLock; LoadB IS_RUNNING; HrtimerCancel; LoadB POLARITY;
         GpiodSetValue (inactive_level d); StoreB PIN_ON false;
         StoreB IS_RUNNING false; MutexUnlock]).
Proof. intros H1 H2. run_call d. destruct p; reflexivity. Qed.

Lemma run_blocked cur o d :
  lock d <> None -> run cur (pwm_call o) d = None.
Proof.
  intros H. destruct o; run_call d; destruct l; congruence.
Qed.

(** The callback runs whatever the state of the mutex. *)
Lemma run_timer_off cur d :
  pin_on d = false ->
  run cur gpio_pwm_timer d =
  Some (HRTIMER_RESTART,
        set_timer (snd (hrtimer_forward_now (on_time d) (timer d)))
          (set_pin_on true (set_gpio_pwm (active_level d) d)),
        [LoadB PIN_ON; LoadB POLARITY; GpiodSetValue (active_level d);
         StoreB PIN_ON true; LoadU ON_TIME; HrtimerForwardNow (on_time d)]).
Proof.
  intros H. destruct d as [r p o a b l t g]. cbn in *. subst. cbn.
  unfold ns_to_ktime.
  destruct (hrtimer_forward_now a t) as [n t'] eqn:E.
  destruct p; reflexivity.
Qed.

Lemma run_timer_on cur d :
  pin_on d = true ->
  run cur gpio_pwm_timer d =
  Some (HRTIMER_RESTART,
        set_timer (snd (hrtimer_forward_now (off_time d) (timer d)))
          (set_pin_on false (set_gpio_pwm (inactive_level d) d)),
        [LoadB PIN_ON; LoadB POLARITY; GpiodSetValue (inactive_level d);
         StoreB PIN_ON false; LoadU OFF_TIME;
         HrtimerForwardNow (off_time d)]).
Proof.
  intros H. destruct d as [r p o a b l t g]. cbn in *. subst. cbn.
  unfold ns_to_ktime.
  destruct (hrtimer_forward_now b t) as [n t'] eqn:E.
  destruct p; reflexivity.
Qed.

(** ** Forwarding and firing *)

Lemma hrtimer_forward_expired now iv t :
  enqueued t = false -> expires t <= now -> 0 < base_resolution t ->
  snd (hrtimer_forward now iv t) =
  mk_hrtimer
    (expires t +
     Z.max iv (base_resolution t) *
     ((now - expires t) / Z.max iv (base_resolution t) + 1))
    false (base_time t) (base_resolution t).
Proof.
  intros Hq Hle Hres. unfold hrtimer_forward. rewrite Hq.
  destruct (Z.ltb_spec (now - expires t) 0) as [H0|H0]; [lia|].
  set (m := Z.max iv (base_resolution t)).
  assert (Hm : (if iv <? base_resolution t then base_resolution t else iv) = m).
  { unfold m. destruct (Z.ltb_spec iv (base_resolution t)); lia. }
  rewrite Hm. assert (0 < m) by (unfold m; lia).
  destruct (Z.leb_spec m (now - expires t)) as [H1|H1].
  - assert (m * ((now - expires t) / m) <= now - expires t)
      by (apply Z.mul_div_le; lia).
    destruct (Z.ltb_spec now (expires t + m * ((now - expires t) / m)));
      [lia|].
    cbn. f_equal. lia.
  - cbn. rewrite Z.div_small by lia. f_equal. lia.
Qed.

Lemma timer_fire_due d :
  hrtimer_due d = true ->
  timer_fire d =
  Some (set_timer
          (set_enqueued true
             (snd (hrtimer_forward_now (phase_interval d)
                     (set_enqueued false (timer d)))))
          (set_pin_on (negb (pin_on d)) (set_gpio_pwm (phase_level d) d)),
        [LoadB PIN_ON; LoadB POLARITY; GpiodSetValue (phase_level d);
         StoreB PIN_ON (negb (pin_on d));
         LoadU (if pin_on d then OFF_TIME else ON_TIME);
         HrtimerForwardNow (phase_interval d)]).
Proof.
  intros H. unfold timer_fire, run_hrtimer. rewrite H.
  destruct (pin_on d) eqn:Hp.
  - rewrite run_timer_on by (destruct d; exact Hp).
    unfold phase_interval, phase_level. rewrite Hp.
    destruct d; reflexivity.
  - rewrite run_timer_off by (destruct d; exact Hp).
    unfold phase_interval, phase_level. rewrite Hp.
    destruct d; reflexivity.
Qed.

Lemma timer_fire_idle d :
  enqueued (timer d) = false -> timer_fire d = None.
Proof.
  intros H. unfold timer_fire, run_hrtimer, hrtimer_due. rewrite H.
  reflexivity.
Qed.

Lemma timer_fire_expires d d' tr :
  0 < base_resolution (timer d) ->
  timer_fire d = Some (d', tr) ->
  expires (timer d') =
  expires (timer d) +
  effective_interval d * (latency d / effective_interval d + 1).
Proof.
  intros Hres Hf.
  destruct (hrtimer_due d) eqn:Hd.
  - rewrite (timer_fire_due d Hd) in Hf. inversion Hf; subst; clear Hf.
    unfold hrtimer_due in Hd. apply andb_prop in Hd. destruct Hd as [_ Hd].
    apply Z.leb_le in Hd.
    unfold hrtimer_forward_now.
    rewrite hrtimer_forward_expired; cbn; try assumption; reflexivity.
  - unfold timer_fire, run_hrtimer in Hf. rewrite Hd in Hf. discriminate.
Qed.

Lemma run_bind {A B : Type} cur (p : prog A) (f : A -> prog B) d :
  run cur (bind p f) d =
  match run cur p d with
  | None => None
  | Some (a, d1, tr1) =>
      match run cur (f a) d1 with
      | None => None
      | Some (r, d2, tr2) => Some (r, d2, tr1 ++ tr2)
      end
  end.
Proof.
  revert d. induction p as [a|c k IH]; intros d; cbn.
  - destruct (run cur (f a) d) as [[[r d2] tr2]|]; reflexivity.
  - destruct (exec cur c d) as [[x d1]|]; [|reflexivity].
    rewrite IH.
    destruct (run cur (k x) d1) as [[[a d2] tr1]|]; [|reflexivity].
    destruct (run cur (f a) d2) as [[[r d3] tr2]|]; reflexivity.
Qed.

Lemma run_call_disable cur d :
  run cur (pwm_call OpDisable) d =
  match run cur gpio_pwm_disable d with
  | None => None
  | Some (_, d1, tr) => Some (0, d1, tr)
  end.
Proof.
  unfold pwm_call. rewrite run_bind.
  destruct (run cur gpio_pwm_disable d) as [[[u d1] tr]|]; [|reflexivity].
  cbn. rewrite app_nil_r. reflexivity.
Qed.

(** ** Steps of a stopped channel *)

Lemma quiet_step_stopped d d' :
  lock d = None -> is_running d = false -> enqueued (timer d) = false ->
  quiet_step d d' ->
  lock d' = None /\ is_running d' = false /\ enqueued (timer d') = false /\
  gpio_pwm d' = gpio_pwm d /\ pin_on d' = pin_on d.
Proof.
  intros Hl Hr Hq Hs. destruct Hs as [cur o d r d' tr Ho Hrun|d d' tr Hf|dt d Hdt].
  - destruct o as [duty period|pol| |].
    + unfold pwm_call in Hrun. rewrite run_config in Hrun by assumption.
      inversion Hrun; subst. destruct d; cbn in *; auto.
    + unfold pwm_call in Hrun.
      rewrite run_set_polarity in Hrun by assumption.
      inversion Hrun; subst. destruct d; cbn in *; auto.
    + congruence.
    + rewrite run_call_disable, run_disable_idle in Hrun by assumption.
      inversion Hrun; subst. auto.
  - rewrite timer_fire_idle in Hf by assumption. discriminate.
  - destruct d as [r p o a b l [e q n s] g]; cbn in *; auto.
Qed.

Lemma quiet_steps_stopped d d' :
  lock d = None -> is_running d = false -> enqueued (timer d) = false ->
  quiet_steps d d' ->
  lock d' = None /\ is_running d' = false /\ enqueued (timer d') = false /\
  gpio_pwm d' = gpio_pwm d /\ pin_on d' = pin_on d.
Proof.
  intros Hl Hr Hq Hs. induction Hs as [d|d d1 d2 Hs IH Hstep].
  - auto.
  - destruct (IH Hl Hr Hq) as (Hl1 & Hr1 & Hq1 & Hg1 & Hp1).
    destruct (quiet_step_stopped d1 d2 Hl1 Hr1 Hq1 Hstep)
      as (Hl2 & Hr2 & Hq2 & Hg2 & Hp2).
    repeat split; congruence.
Qed.

(** ** The operations *)

(** C7 (amended): configure stores duty_ns and period_ns - duty_ns reduced
    modulo 2^32 into the unsigned fields on_time and off_time, without any
    validation; these are duty_ns and period_ns - duty_ns themselves when
    0 <= duty_ns <= period_ns.  It leaves the pin level, the phase, the
    polarity, the running flag and the timer as they were, and returns 0. *)
Theorem gpio_pwm_config_stores_modulo :
  forall cur duty_ns period_ns d,
    lock d = None ->
    exists d',
      run cur (gpio_pwm_config duty_ns period_ns) d =
        Some (0, d',
              [MutexLock; StoreU ON_TIME (duty_ns mod 2 ^ 32);
               StoreU OFF_TIME ((period_ns - duty_ns) mod 2 ^ 32);
               MutexUnlock]) /\
      on_time d' = duty_ns mod 2 ^ 32 /\
      off_time d' = (period_ns - duty_ns) mod 2 ^ 32 /\
      (0 <= duty_ns <= period_ns -> period_ns <= INT_MAX ->
       on_time d' = duty_ns /\ off_time d' = period_ns - duty_ns) /\
      gpio_pwm d' = gpio_pwm d /\ pin_on d' = pin_on d /\
      polarity d' = polarity d /\ is_running d' = is_running d /\
      timer d' = timer d /\ lock d' = None.
Proof.
  intros cur duty_ns period_ns d Hl.
  eexists. rewrite run_config by assumption.
  rewrite to_uint_int_sub. unfold to_uint, UINT_MOD.
  split; [reflexivity|].
  destruct d as [r p o a b l t g]; cbn in *.
  repeat split; try reflexivity; try assumption.
  - apply Z.mod_small. unfold INT_MAX in *. lia.
  - apply Z.mod_small. unfold INT_MAX in *. lia.
Qed.

Lemma gpio_pwm_config_stores_modulo_witness :
  lock zeroed = None /\
  exists d',
    run (Task 0) (gpio_pwm_config 3000000 10000000) zeroed =
      Some (0, d',
            [MutexLock; StoreU ON_TIME 3000000; StoreU OFF_TIME 7000000;
             MutexUnlock]) /\
    on_time d' = 3000000 /\ off_time d' = 7000000.
Proof.
  split; [reflexivity|].
  destruct (gpio_pwm_config_stores_modulo (Task 0) 3000000 10000000 zeroed
              eq_refl) as (d' & H1 & H2 & H3 & _).
  exists d'. repeat split; assumption.
Defined.

(** C7, as stated, fails: with duty_ns = 5 and period_ns = 3 the field
    off_time holds 4294967294, not 3 - 5. *)
Lemma gpio_pwm_config_off_time_wraps :
  exists d' tr,
    run (Task 0) (gpio_pwm_config 5 3) zeroed = Some (0, d', tr) /\
    off_time d' = 4294967294 /\
    off_time d' <> 3 - 5.
Proof.
  eexists. eexists. split; [reflexivity|]. cbn. split; [reflexivity|lia].
Qed.

(** ** Acquisition *)

Lemma gpio_pwm_request_success env k k' :
  gpio_pwm_request env k = (0, k') ->
  kzalloc_ok env = true /\ IS_ERR (gpiod_get env) = false /\
  chip_data k' = Some (fresh (clock_now env) (clock_resolution env)) /\
  kmem_live k' = S (kmem_live k) /\ gpio_claimed k' = true.
Proof.
  unfold gpio_pwm_request, kzalloc.
  destruct (kzalloc_ok env); [|unfold ENOMEM; intros H; inversion H].
  destruct (IS_ERR (gpiod_get env)) eqn:E.
  - unfold IS_ERR, PTR_ERR in *. intros H. inversion H as [[H0 H1]].
    rewrite H0 in E. discriminate.
  - intros H. inversion H; subst; clear H.
    destruct (hres_active env); cbn; auto.
Qed.

Lemma chan_inv_fresh now resolution : chan_inv (fresh now resolution).
Proof. unfold chan_inv. cbn. auto. Qed.

(** C4: called on a running channel, enable returns -EBUSY and leaves the
    whole record as it was; called on a stopped channel, it sets is_running,
    queues the timer to expire at the current time (zero relative delay, so
    the timer is due at once), changes nothing else and returns 0. *)
Theorem gpio_pwm_enable_busy_or_start :
  forall cur d,
    lock d = None ->
    (is_running d = true ->
     run cur gpio_pwm_enable d =
       Some (- EBUSY, d, [MutexLock; LoadB IS_RUNNING; MutexUnlock])) /\
    (is_running d = false ->
     exists d',
       run cur gpio_pwm_enable d =
         Some (0, d',
               [MutexLock; LoadB IS_RUNNING; StoreB IS_RUNNING true;
                HrtimerStart 0; MutexUnlock]) /\
       is_running d' = true /\
       enqueued (timer d') = true /\
       expires (timer d') = base_time (timer d) + 0 /\
       hrtimer_due d' = true /\
       polarity d' = polarity d /\ pin_on d' = pin_on d /\
       on_time d' = on_time d /\ off_time d' = off_time d /\
       gpio_pwm d' = gpio_pwm d /\ lock d' = None).
Proof.
  intros cur d Hl. split; intros Hr.
  - apply run_enable_busy; assumption.
  - eexists. rewrite run_enable_idle by assumption.
    split; [reflexivity|].
    destruct d as [r p o a b l [e q n s] g]; cbn in *.
    unfold hrtimer_due; cbn.
    replace (n + 0 <=? n) with true by (symmetry; apply Z.leb_le; lia).
    repeat split; auto.
Qed.

Lemma gpio_pwm_enable_busy_or_start_witness :
  lock (fresh 100 1) = None /\
  exists d',
    run (Task 0) gpio_pwm_enable (fresh 100 1) =
      Some (0, d',
            [MutexLock; LoadB IS_RUNNING; StoreB IS_RUNNING true;
             HrtimerStart 0; MutexUnlock]) /\
    run (Task 1) gpio_pwm_enable d' =
      Some (- EBUSY, d', [MutexLock; LoadB IS_RUNNING; MutexUnlock]).
Proof.
  split; [reflexivity|].
  destruct (gpio_pwm_enable_busy_or_start (Task 0) (fresh 100 1) eq_refl)
    as [_ H].
  destruct (H eq_refl) as (d' & H1 & H2 & _ & _ & _ & _ & _ & _ & _ & _ & H3).
  exists d'. split; [exact H1|].
  exact (proj1 (gpio_pwm_enable_busy_or_start (Task 1) d' H3) H2).
Defined.

(** C5: on a stopped channel disable returns without changing any field of
    the record or writing the pin; this covers the channel as request
    leaves it, whose line stays at the low level request drove.  On any
    channel a second disable right after the first changes nothing: twice
    ends in the same state as once. *)
Theorem gpio_pwm_disable_idempotent :
  (forall cur d,
     lock d = None -> is_running d = false ->
     run cur gpio_pwm_disable d =
       Some (tt, d, [MutexLock; LoadB IS_RUNNING; MutexUnlock])) /\
  (forall cur env k k' d,
     gpio_pwm_request env k = (0, k') -> chip_data k' = Some d ->
     run cur gpio_pwm_disable d =
       Some (tt, d, [MutexLock; LoadB IS_RUNNING; MutexUnlock]) /\
     gpio_pwm d = 0 /\ inactive_level d = 0) /\
  (forall cur d,
     lock d = None ->
     exists d1 tr1,
       run cur gpio_pwm_disable d = Some (tt, d1, tr1) /\
       run cur (gpio_pwm_disable ;; gpio_pwm_disable) d =
         Some (tt, d1, tr1 ++ [MutexLock; LoadB IS_RUNNING; MutexUnlock]) /\
       is_running d1 = false).
Proof.
  split; [|split].
  - intros cur d Hl Hr. apply run_disable_idle; assumption.
  - intros cur env k k' d Hreq Hd.
    destruct (gpio_pwm_request_success env k k' Hreq) as (_ & _ & Hc & _).
    rewrite Hc in Hd. inversion Hd; subst.
    split; [apply run_disable_idle; reflexivity|split; reflexivity].
  - intros cur d Hl. destruct (is_running d) eqn:Hr.
    + eexists. eexists. rewrite run_bind.
      rewrite run_disable_running by assumption.
      split; [reflexivity|].
      rewrite run_disable_idle
        by (destruct d as [r p o a b l [e q n s] g]; cbn in *; auto).
      split; reflexivity.
    + eexists. eexists. rewrite run_bind.
      rewrite run_disable_idle by assumption.
      split; [reflexivity|].
      rewrite run_disable_idle by assumption.
      split; [reflexivity|assumption].
Qed.

Lemma gpio_pwm_disable_idempotent_witness :
  lock (fresh 0 1) = None /\ is_running (fresh 0 1) = false /\
  run (Task 0) gpio_pwm_disable (fresh 0 1) =
    Some (tt, fresh 0 1, [MutexLock; LoadB IS_RUNNING; MutexUnlock]).
Proof.
  split; [reflexivity|]. split; [reflexivity|].
  exact (proj1 gpio_pwm_disable_idempotent (Task 0) (fresh 0 1)
           eq_refl eq_refl).
Defined.

(** ** One firing *)

Lemma hrtimer_forward_punctual now iv t :
  enqueued t = false -> expires t <= now -> now - expires t < iv ->
  base_resolution t <= iv ->
  hrtimer_forward now iv t =
  (1, mk_hrtimer (expires t + iv) false (base_time t) (base_resolution t)).
Proof.
  intros Hq Hle Hlat Hres. unfold hrtimer_forward. rewrite Hq.
  destruct (Z.ltb_spec (now - expires t) 0); [lia|].
  destruct (Z.ltb_spec iv (base_resolution t)); [lia|].
  destruct (Z.leb_spec iv (now - expires t)); [lia|].
  reflexivity.
Qed.

Lemma hrtimer_due_inv d :
  hrtimer_due d = true -> enqueued (timer d) = true /\ 0 <= latency d.
Proof.
  unfold hrtimer_due, latency. intros H. apply andb_prop in H.
  destruct H as [H1 H2]. apply Z.leb_le in H2. split; [assumption|lia].
Qed.

Lemma timer_fire_some d d' tr :
  timer_fire d = Some (d', tr) -> hrtimer_due d = true.
Proof.
  unfold timer_fire, run_hrtimer. destruct (hrtimer_due d); [reflexivity|].
  discriminate.
Qed.

Lemma timer_fire_punctual d d' tr :
  timer_fire d = Some (d', tr) ->
  latency d < phase_interval d ->
  base_resolution (timer d) <= phase_interval d ->
  expires (timer d') = expires (timer d) + phase_interval d.
Proof.
  intros Hf Hlat Hres. pose proof (timer_fire_some _ _ _ Hf) as Hd.
  rewrite (timer_fire_due d Hd) in Hf. inversion Hf; subst; clear Hf.
  destruct (hrtimer_due_inv d Hd) as [_ H0]. unfold latency in *.
  unfold hrtimer_forward_now.
  rewrite hrtimer_forward_punctual; cbn; try assumption; try reflexivity.
  lia.
Qed.

Lemma timer_fire_frame d d' tr :
  timer_fire d = Some (d', tr) ->
  is_running d' = is_running d /\ polarity d' = polarity d /\
  on_time d' = on_time d /\ off_time d' = off_time d /\
  lock d' = lock d /\ pin_on d' = negb (pin_on d) /\
  gpio_pwm d' = phase_level d /\ enqueued (timer d') = true /\
  base_time (timer d') = base_time (timer d) /\
  base_resolution (timer d') = base_resolution (timer d).
Proof.
  intros Hf. pose proof (timer_fire_some _ _ _ Hf) as Hd.
  rewrite (timer_fire_due d Hd) in Hf. inversion Hf; subst; clear Hf.
  destruct (hrtimer_due_inv d Hd) as [Hq H0]. unfold latency in H0.
  destruct d as [r p o a b l [e q n s] g]; cbn in *.
  repeat split; try reflexivity.
  - unfold hrtimer_forward_now, hrtimer_forward; cbn.
    repeat match goal with |- context [if ?c then _ else _] =>
      destruct c end; reflexivity.
  - unfold hrtimer_forward_now, hrtimer_forward; cbn.
    repeat match goal with |- context [if ?c then _ else _] =>
      destruct c end; reflexivity.
Qed.

Lemma timer_fire_expiry_law d d' tr :
  0 < base_resolution (timer d) ->
  timer_fire d = Some (d', tr) ->
  expires (timer d') =
    expires (timer d) +
    effective_interval d * (latency d / effective_interval d + 1) /\
  base_time (timer d) < expires (timer d') <=
    base_time (timer d) + effective_interval d.
Proof.
  intros Hres Hf.
  pose proof (timer_fire_expires d d' tr Hres Hf) as He.
  split; [exact He|].
  destruct (hrtimer_due_inv d (timer_fire_some _ _ _ Hf)) as [_ H0].
  assert (Hm : 0 < effective_interval d)
    by (unfold effective_interval; lia).
  pose proof (Z.mul_div_le (latency d) (effective_interval d) Hm).
  pose proof (Z.mul_succ_div_gt (latency d) (effective_interval d) Hm).
  unfold latency in *. lia.
Qed.

(** C6 (amended): a firing that finds pin_on clear drives the line to the
    active level (0 when polarity is set, 1 otherwise), sets pin_on and
    forwards the timer by on_time; one that finds pin_on set drives the
    inactive level (1 when polarity is set, 0 otherwise), clears pin_on
    and forwards by off_time.  Either way the callback answers
    HRTIMER_RESTART and the timer is queued again.  Forwarding by an
    interval moves the expiry, from its old value, by the least multiple
    of the interval (raised to the resolution of the clock) that lies
    after the current time: the next firing is due at most one such
    interval after the current time, and exactly the interval after the
    old expiry when the firing is served less than the interval after its
    expiry and the interval is not below the resolution. *)
Theorem gpio_pwm_timer_toggles_and_rearms :
  (forall cur d,
     exists d' tr,
       run cur gpio_pwm_timer d = Some (HRTIMER_RESTART, d', tr)) /\
  (forall d,
     hrtimer_due d = true -> pin_on d = false ->
     exists d',
       timer_fire d =
         Some (d',
               [LoadB PIN_ON; LoadB POLARITY;
                GpiodSetValue (if polarity d then 0 else 1);
                StoreB PIN_ON true; LoadU ON_TIME;
                HrtimerForwardNow (on_time d)]) /\
       gpio_pwm d' = (if polarity d then 0 else 1) /\
       pin_on d' = true /\
       enqueued (timer d') = true /\
       (latency d < on_time d -> base_resolution (timer d) <= on_time d ->
        expires (timer d') = expires (timer d) + on_time d) /\
       timer d' =
         set_enqueued true
           (snd (hrtimer_forward_now (ns_to_ktime (on_time d))
                   (set_enqueued false (timer d)))) /\
       (0 < base_resolution (timer d) ->
        expires (timer d') =
          expires (timer d) +
          Z.max (on_time d) (base_resolution (timer d)) *
          (latency d / Z.max (on_time d) (base_resolution (timer d)) + 1) /\
        base_time (timer d) < expires (timer d') <=
          base_time (timer d) +
          Z.max (on_time d) (base_resolution (timer d)))) /\
  (forall d,
     hrtimer_due d = true -> pin_on d = true ->
     exists d',
       timer_fire d =
         Some (d',
               [LoadB PIN_ON; LoadB POLARITY;
                GpiodSetValue (if polarity d then 1 else 0);
                StoreB PIN_ON false; LoadU OFF_TIME;
                HrtimerForwardNow (off_time d)]) /\
       gpio_pwm d' = (if polarity d then 1 else 0) /\
       pin_on d' = false /\
       enqueued (timer d') = true /\
       (latency d < off_time d -> base_resolution (timer d) <= off_time d ->
        expires (timer d') = expires (timer d) + off_time d) /\
       timer d' =
         set_enqueued true
           (snd (hrtimer_forward_now (ns_to_ktime (off_time d))
                   (set_enqueued false (timer d)))) /\
       (0 < base_resolution (timer d) ->
        expires (timer d') =
          expires (timer d) +
          Z.max (off_time d) (base_resolution (timer d)) *
          (latency d / Z.max (off_time d) (base_resolution (timer d)) + 1) /\
        base_time (timer d) < expires (timer d') <=
          base_time (timer d) +
          Z.max (off_time d) (base_resolution (timer d)))).
Proof.
  split; [|split].
  - intros cur d. destruct (pin_on d) eqn:Hp.
    + eexists. eexists. apply run_timer_on. assumption.
    + eexists. eexists. apply run_timer_off. assumption.
  - intros d Hd Hp. pose proof (timer_fire_due d Hd) as Hf.
    pose proof (fun Hres => timer_fire_expiry_law d _ _ Hres Hf) as Hlaw.
    unfold effective_interval in Hlaw.
    unfold phase_level, phase_interval, active_level in Hf, Hlaw.
    rewrite Hp in Hf, Hlaw. cbn [negb] in Hf, Hlaw.
    eexists. split; [exact Hf|].
    destruct (timer_fire_frame _ _ _ Hf) as (_ & _ & _ & _ & _ & H1 & H2 & H3 & _).
    unfold phase_level, active_level in H2. rewrite Hp in H1, H2.
    split; [assumption|]. split; [assumption|]. split; [assumption|].
    split; [|split].
    + intros Hlat Hres.
      pose proof (timer_fire_punctual _ _ _ Hf) as H.
      unfold phase_interval in H. rewrite Hp in H. apply H; assumption.
    + destruct d; reflexivity.
    + exact Hlaw.
  - intros d Hd Hp. pose proof (timer_fire_due d Hd) as Hf.
    pose proof (fun Hres => timer_fire_expiry_law d _ _ Hres Hf) as Hlaw.
    unfold effective_interval in Hlaw.
    unfold phase_level, phase_interval, inactive_level in Hf, Hlaw.
    rewrite Hp in Hf, Hlaw. cbn [negb] in Hf, Hlaw.
    eexists. split; [exact Hf|].
    destruct (timer_fire_frame _ _ _ Hf) as (_ & _ & _ & _ & _ & H1 & H2 & H3 & _).
    unfold phase_level, inactive_level in H2. rewrite Hp in H1, H2.
    split; [assumption|]. split; [assumption|]. split; [assumption|].
    split; [|split].
    + intros Hlat Hres.
      pose proof (timer_fire_punctual _ _ _ Hf) as H.
      unfold phase_interval in H. rewrite Hp in H. apply H; assumption.
    + destruct d; reflexivity.
    + exact Hlaw.
Qed.

Lemma gpio_pwm_timer_toggles_and_rearms_witness :
  (hrtimer_due example_started = true /\ pin_on example_started = false /\
   exists d',
     timer_fire example_started =
       Some (d',
             [LoadB PIN_ON; LoadB POLARITY; GpiodSetValue 1;
              StoreB PIN_ON true; LoadU ON_TIME;
              HrtimerForwardNow 3000000]) /\
     gpio_pwm d' = 1 /\ pin_on d' = true /\
     expires (timer d') = 100 + 3000000) /\
  (hrtimer_due example_late = true /\ pin_on example_late = false /\
   exists d' tr,
     timer_fire example_late = Some (d', tr) /\
     expires (timer d') = 100 + 3 * (10 / 3 + 1)).
Proof.
  split.
  - split; [reflexivity|]. split; [reflexivity|].
    destruct (proj1 (proj2 gpio_pwm_timer_toggles_and_rearms)
                example_started eq_refl eq_refl)
      as (d' & Hf & Hg & Hp & Hq & He & _).
    exists d'. split; [exact Hf|]. split; [exact Hg|]. split; [exact Hp|].
    apply He.
    + vm_compute. reflexivity.
    + vm_compute. discriminate.
  - split; [reflexivity|]. split; [reflexivity|].
    destruct (proj1 (proj2 gpio_pwm_timer_toggles_and_rearms)
                example_late eq_refl eq_refl)
      as (d' & Hf & _ & _ & _ & _ & _ & Hlaw).
    exists d'. eexists. split; [exact Hf|].
    assert (Hres : 0 < base_resolution (timer example_late))
      by (vm_compute; reflexivity).
    exact (proj1 (Hlaw Hres)).
Defined.

(** C6, as stated, fails in its scheduling clause.  A firing that finds
    pin_on clear 10 ns after its expiry of 100, with on_time = 3, drives
    the active level and sets pin_on, but leaves the next firing due at
    112: that is neither on_time after the old expiry (103) nor on_time
    after the current time (113), and only 2 ns ahead.  With on_time = 0
    and no latency the next firing is due one resolution step later, at
    101, not at 100. *)
Lemma late_firing_not_after_on_time :
  (hrtimer_due example_late = true /\
   pin_on example_late = false /\
   on_time example_late = 3 /\
   expires (timer example_late) = 100 /\
   base_time (timer example_late) = 110 /\
   exists d' tr,
     timer_fire example_late = Some (d', tr) /\
     gpio_pwm d' = 1 /\ pin_on d' = true /\
     expires (timer d') = 112 /\
     expires (timer d') <> expires (timer example_late) + on_time example_late /\
     expires (timer d') <> base_time (timer example_late) + on_time example_late /\
     expires (timer d') - base_time (timer example_late) < on_time example_late) /\
  (hrtimer_due example_zero_duty = true /\
   pin_on example_zero_duty = false /\
   on_time example_zero_duty = 0 /\
   latency example_zero_duty = 0 /\
   exists d' tr,
     timer_fire example_zero_duty = Some (d', tr) /\
     expires (timer d') = 101 /\
     expires (timer d') <>
       expires (timer example_zero_duty) + on_time example_zero_duty).
Proof.
  split.
  - do 5 (split; [reflexivity|]).
    eexists. eexists. split; [reflexivity|].
    do 3 (split; [reflexivity|]).
    split; [vm_compute; discriminate|].
    split; [vm_compute; discriminate|].
    vm_compute. reflexivity.
  - do 4 (split; [reflexivity|]).
    eexists. eexists. split; [reflexivity|].
    split; [reflexivity|]. vm_compute. discriminate.
Qed.

(** ** Stopping *)

(** C3: disable on a running channel returns with the timer out of the
    queue, the line at the inactive level (1 when polarity is set, 0
    otherwise) whatever pin_on was, pin_on clear and is_running clear; and
    from there no firing can take place, and the line keeps its level,
    through any later steps that contain no call of enable. *)
Theorem gpio_pwm_disable_stops :
  forall cur d,
    lock d = None -> is_running d = true ->
    exists d' tr,
      run cur gpio_pwm_disable d = Some (tt, d', tr) /\
      In HrtimerCancel tr /\
      enqueued (timer d') = false /\
      gpio_pwm d' = (if polarity d then 1 else 0) /\
      pin_on d' = false /\
      is_running d' = false /\
      lock d' = None /\
      (forall d'',
         quiet_steps d' d'' ->
         timer_fire d'' = None /\ enqueued (timer d'') = false /\
         gpio_pwm d'' = gpio_pwm d' /\ is_running d'' = false).
Proof.
  intros cur d Hl Hr. eexists. eexists.
  rewrite run_disable_running by assumption.
  split; [reflexivity|].
  split; [cbn; tauto|].
  assert (H : forall x, lock x = None -> is_running x = false ->
                enqueued (timer x) = false ->
                forall d'', quiet_steps x d'' ->
                timer_fire d'' = None /\ enqueued (timer d'') = false /\
                gpio_pwm d'' = gpio_pwm x /\ is_running d'' = false).
  { intros x H1 H2 H3 d'' Hs.
    destruct (quiet_steps_stopped x d'' H1 H2 H3 Hs) as (_ & Hr2 & Hq2 & Hg2 & _).
    repeat split; try assumption. apply timer_fire_idle. assumption. }
  do 5 (split; [destruct d as [r p o a b l [e q n s] g]; cbn in *;
                 try assumption; reflexivity|]).
  apply H; destruct d as [r p o a b l [e q n s] g]; cbn in *;
    try assumption; reflexivity.
Qed.

Lemma gpio_pwm_disable_stops_witness :
  lock example_started = None /\ is_running example_started = true /\
  exists d' tr,
    run (Task 0) gpio_pwm_disable example_started = Some (tt, d', tr) /\
    enqueued (timer d') = false /\ gpio_pwm d' = 0 /\
    is_running d' = false /\ timer_fire (advance 5 d') = None.
Proof.
  split; [reflexivity|]. split; [reflexivity|].
  destruct (gpio_pwm_disable_stops (Task 0) example_started eq_refl eq_refl)
    as (d' & tr & H1 & _ & H2 & H3 & _ & H4 & _ & H5).
  exists d', tr. repeat split; try assumption.
  apply (H5 (advance 5 d')).
  apply (quiet_trans d' d' (advance 5 d')); [apply quiet_refl|].
  apply quiet_tick. vm_compute. discriminate.
Defined.

(** ** The invariant of the channel *)

Lemma chan_inv_call cur o d r d' tr :
  chan_inv d -> run cur (pwm_call o) d = Some (r, d', tr) -> chan_inv d'.
Proof.
  intros (Hl & Hq & Hp) Hrun. destruct o as [duty period|pol| |].
  - unfold pwm_call in Hrun. rewrite run_config in Hrun by assumption.
    inversion Hrun; subst. destruct d; cbn in *. repeat split; assumption.
  - unfold pwm_call in Hrun. rewrite run_set_polarity in Hrun by assumption.
    inversion Hrun; subst. destruct d; cbn in *. repeat split; assumption.
  - unfold pwm_call in Hrun. destruct (is_running d) eqn:Hr.
    + rewrite run_enable_busy in Hrun by assumption.
      inversion Hrun; subst.
      repeat split; intros; try assumption; try congruence; auto.
    + rewrite run_enable_idle in Hrun by assumption.
      inversion Hrun; subst. destruct d; cbn in *.
      repeat split; try assumption; try reflexivity; intros; discriminate.
  - rewrite run_call_disable in Hrun. destruct (is_running d) eqn:Hr.
    + rewrite run_disable_running in Hrun by assumption.
      inversion Hrun; subst. destruct d; cbn in *.
      repeat split; try assumption; reflexivity.
    + rewrite run_disable_idle in Hrun by assumption.
      inversion Hrun; subst.
      repeat split; intros; try assumption; try congruence; auto.
Qed.

Lemma chan_inv_step d d' : chan_inv d -> op_step d d' -> chan_inv d'.
Proof.
  intros Hinv Hs. destruct Hs as [cur o d r d' tr Hrun|d d' tr Hf|dt d Hdt].
  - eapply chan_inv_call; eassumption.
  - destruct Hinv as (Hl & Hq & Hp).
    pose proof (timer_fire_some _ _ _ Hf) as Hd.
    destruct (hrtimer_due_inv d Hd) as [He _].
    destruct (timer_fire_frame _ _ _ Hf)
      as (H1 & _ & _ & _ & H2 & _ & _ & H3 & _).
    repeat split; try congruence.
  - destruct Hinv as (Hl & Hq & Hp).
    destruct d as [r p o a b l [e q n s] g]; cbn in *.
    repeat split; assumption.
Qed.

Lemma reachable_chan_inv d : reachable d -> chan_inv d.
Proof.
  intros H. induction H as [env k k' d Hreq Hd|d d' _ IH Hs].
  - destruct (gpio_pwm_request_success env k k' Hreq) as (_ & _ & Hc & _).
    rewrite Hc in Hd. inversion Hd; subst. apply chan_inv_fresh.
  - eapply chan_inv_step; eassumption.
Qed.

Lemma reachable_fresh now resolution : reachable (fresh now resolution).
Proof.
  apply (reachable_request (mk_request_env true 1 true now resolution)
           (mk_kernel 0 false None []) (mk_kernel 1 true
              (Some (fresh now resolution)) [])); reflexivity.
Qed.

Lemma reachable_example_started : reachable example_started.
Proof.
  apply (reachable_step example_stopped).
  - apply (reachable_step (fresh 100 1)); [apply reachable_fresh|].
    apply (op_step_call (Task 0) (OpConfig 3000000 10000000)
             (fresh 100 1) 0 example_stopped
             [MutexLock; StoreU ON_TIME 3000000; StoreU OFF_TIME 7000000;
              MutexUnlock]).
    reflexivity.
  - apply (op_step_call (Task 0) OpEnable example_stopped 0 example_started
             [MutexLock; LoadB IS_RUNNING; StoreB IS_RUNNING true;
              HrtimerStart 0; MutexUnlock]).
    reflexivity.
Defined.

(** ** Starting *)

Lemma steps_step_l a b c : step a b -> steps b c -> steps a c.
Proof.
  intros Hab Hbc. induction Hbc as [b|b c1 c2 _ IH Hstep].
  - apply (steps_trans a a b); [apply steps_refl|exact Hab].
  - apply (steps_trans a c1 c2); [apply IH; exact Hab|exact Hstep].
Qed.

Lemma steps_app a b c : steps a b -> steps b c -> steps a c.
Proof.
  intros Hab Hbc. induction Hbc as [b|b c1 c2 _ IH Hstep].
  - exact Hab.
  - apply (steps_trans a c1 c2); [apply IH; exact Hab|exact Hstep].
Qed.

(** A callback that runs to its end does so action by action. *)
Lemma irq_run_steps (p : prog hrtimer_restart) :
  forall d r d' tr ts,
    run HardIrq p d = Some (r, d', tr) ->
    steps (mk_config d ts (Some p)) (mk_config d' ts (Some (Ret r))).
Proof.
  induction p as [r0|c k IH]; intros d r d' tr ts Hrun.
  - cbn in Hrun. inversion Hrun; subst. apply steps_refl.
  - cbn [run] in Hrun.
    destruct (exec HardIrq c d) as [[a d1]|] eqn:He; [|discriminate].
    destruct (run HardIrq (k a) d1) as [[[r1 d2] tr1]|] eqn:Hr;
      [|discriminate].
    inversion Hrun; subst.
    apply (steps_step_l _ (mk_config d1 ts (Some (k a)))).
    + apply (step_irq c k a d1 (mk_config d ts (Some (Vis c k))));
        [reflexivity|exact He].
    + eapply IH. exact Hr.
Qed.

Ltac task_step c :=
  eapply steps_step_l;
  [eapply (step_task 0%nat c);
   [reflexivity|intros H; discriminate H|reflexivity]|cbn].

(** The firing enable arms can be served before enable unlocks. *)
Lemma enable_served_early d :
  lock d = None -> is_running d = false -> pin_on d = false ->
  exists cfg,
    steps (mk_config d [pwm_call OpEnable] None) cfg /\
    tasks cfg = [Ret 0] /\ irq cfg = None /\
    lock (shared cfg) = None /\
    gpio_pwm (shared cfg) = active_level d /\
    pin_on (shared cfg) = true /\
    is_running (shared cfg) = true.
Proof.
  intros Hl Hr Hp.
  destruct d as [r p o a b l [e q n s] g]. cbn in Hl, Hr, Hp. subst.
  eexists. split.
  - task_step MutexLock.
    task_step (LoadB IS_RUNNING).
    task_step (StoreB IS_RUNNING true).
    task_step (HrtimerStart 0).
    eapply steps_step_l.
    { eapply step_irq_enter; [reflexivity|].
      unfold hrtimer_due. cbn. apply Z.leb_le. lia. }
    cbn.
    eapply steps_app.
    { eapply irq_run_steps. apply run_timer_off. reflexivity. }
    eapply steps_step_l.
    { eapply step_irq_exit. reflexivity. }
    cbn.
    task_step MutexUnlock.
    apply steps_refl.
  - cbn. unfold active_level. cbn. repeat split; reflexivity.
Qed.

Lemma exec_no_pin_write cur c d a d' :
  is_pin_write c = false -> exec cur c d = Some (a, d') ->
  gpio_pwm d' = gpio_pwm d.
Proof.
  intros Hc He. destruct c; cbn in Hc; try discriminate; cbn in He.
  - destruct (lock d); [discriminate|]. inversion He; subst.
    destruct d; reflexivity.
  - inversion He; subst. destruct d; reflexivity.
  - inversion He; subst. reflexivity.
  - inversion He; subst. destruct f; destruct d; reflexivity.
  - inversion He; subst. reflexivity.
  - inversion He; subst. destruct f; destruct d; reflexivity.
  - inversion He; subst. destruct d; reflexivity.
  - inversion He; subst. destruct d; reflexivity.
  - destruct (hrtimer_forward_now interval (timer d)) as [n t].
    inversion He; subst. destruct d; reflexivity.
Qed.

Lemma no_pin_write_enable : no_pin_write gpio_pwm_enable.
Proof.
  cbn. split; [reflexivity|]. intros _. split; [reflexivity|].
  intros [|]; cbn.
  - split; [reflexivity|]. intros _. exact I.
  - split; [reflexivity|]. intros _. split; [reflexivity|]. intros _.
    split; [reflexivity|]. intros _. exact I.
Qed.

(** C10 (amended): a successful enable performs no pin write of its own:
    its program holds no write to the line on any path, and no action a
    task takes inside it changes the line.  The first transition to the
    active level happens only inside the first timer firing, which enable
    arms with zero delay: whenever that firing is served, and whether the
    mutex is still held or not, it drives the line to the active level.
    When no firing is served before enable returns, the line is at return
    at the level it had before the call.  The callback takes no mutex,
    though, so that firing can be served before enable returns, and then
    enable returns 0 with the line already at the active level. *)
Theorem gpio_pwm_enable_leaves_pin :
  no_pin_write gpio_pwm_enable /\
  (forall cur c (k : reply c -> prog Z) d a d',
     no_pin_write (Vis c k) ->
     exec cur c d = Some (a, d') ->
     gpio_pwm d' = gpio_pwm d /\ no_pin_write (k a)) /\
  (forall cur d,
     reachable d -> is_running d = false ->
     exists d' tr,
       run cur gpio_pwm_enable d = Some (0, d', tr) /\
       (forall v, ~ In (GpiodSetValue v) tr) /\
       gpio_pwm d' = gpio_pwm d /\
       pin_on d' = false /\
       hrtimer_due d' = true /\
       (forall dt w,
          0 <= dt ->
          exists d'' tr',
            timer_fire (advance dt (set_lock w d')) = Some (d'', tr') /\
            In (GpiodSetValue (active_level d)) tr' /\
            gpio_pwm d'' = active_level d /\
            pin_on d'' = true)) /\
  (forall d,
     reachable d -> is_running d = false ->
     exists cfg,
       steps (mk_config d [pwm_call OpEnable] None) cfg /\
       tasks cfg = [Ret 0] /\ irq cfg = None /\
       lock (shared cfg) = None /\
       gpio_pwm (shared cfg) = active_level d /\
       pin_on (shared cfg) = true /\
       is_running (shared cfg) = true).
Proof.
  split; [exact no_pin_write_enable|]. split; [|split].
  - intros cur c k d a d' [Hc Hk] He. split; [|apply Hk].
    eapply exec_no_pin_write; eassumption.
  - intros cur d Hr Hrun.
    destruct (reachable_chan_inv d Hr) as (Hl & Hq & Hp).
    specialize (Hp Hrun).
    eexists. eexists. rewrite run_enable_idle by assumption.
    split; [reflexivity|]. split.
    { intros v H. cbn in H. intuition discriminate. }
    split; [destruct d; reflexivity|].
    split; [destruct d; exact Hp|].
    split.
    { destruct d as [r p o a b l [e q n s] g]. unfold hrtimer_due. cbn.
      apply Z.leb_le. lia. }
    intros dt w Hdt.
    assert (Hd : hrtimer_due
                   (advance dt
                      (set_lock w
                         (set_timer (hrtimer_start 0 (timer d))
                            (set_is_running true d)))) = true).
    { destruct d as [r p o a b l [e q n s] g]. unfold hrtimer_due. cbn.
      apply Z.leb_le. lia. }
    eexists. eexists. rewrite (timer_fire_due _ Hd).
    split; [reflexivity|].
    destruct d as [r p o a b l [e q n s] g]; cbn in *. subst.
    unfold phase_level, active_level; cbn.
    split; [tauto|]. split; reflexivity.
  - intros d Hr Hrun.
    destruct (reachable_chan_inv d Hr) as (Hl & _ & Hp).
    apply enable_served_early; auto.
Qed.

Lemma gpio_pwm_enable_leaves_pin_witness :
  reachable example_stopped /\ is_running example_stopped = false /\
  (exists d' tr,
     run (Task 0) gpio_pwm_enable example_stopped = Some (0, d', tr) /\
     gpio_pwm d' = 0 /\
     exists d'' tr',
       timer_fire (advance 0 (set_lock (Some (Task 0)) d')) =
         Some (d'', tr') /\
       gpio_pwm d'' = 1) /\
  (exists cfg,
     steps example_enable_called cfg /\ tasks cfg = [Ret 0] /\
     gpio_pwm (shared cfg) = active_level example_stopped).
Proof.
  assert (Hr : reachable example_stopped).
  { apply (reachable_step (fresh 100 1)); [apply reachable_fresh|].
    apply (op_step_call (Task 0) (OpConfig 3000000 10000000)
             (fresh 100 1) 0 example_stopped
             [MutexLock; StoreU ON_TIME 3000000; StoreU OFF_TIME 7000000;
              MutexUnlock]).
    reflexivity. }
  split; [exact Hr|]. split; [reflexivity|]. split.
  - destruct (proj1 (proj2 (proj2 gpio_pwm_enable_leaves_pin))
                (Task 0) example_stopped Hr eq_refl)
      as (d' & tr & H1 & _ & H2 & _ & _ & H3).
    exists d', tr. split; [exact H1|]. split; [exact H2|].
    destruct (H3 0 (Some (Task 0%nat)) (Z.le_refl 0))
      as (d'' & tr' & H4 & _ & H5 & _).
    exists d'', tr'. split; [exact H4|exact H5].
  - destruct (proj2 (proj2 (proj2 gpio_pwm_enable_leaves_pin))
                example_stopped Hr eq_refl)
      as (cfg & H1 & H2 & _ & _ & H3 & _).
    exists cfg. split; [exact H1|]. split; [exact H2|exact H3].
Defined.

(** C10, as stated, fails in the clause on the level at return.  Task 0
    calls enable on the stopped channel, whose line is at 0; it locks,
    sets is_running and starts the timer, which is due at once; the timer
    interrupt serves it before the task unlocks, and the callback drives
    the line to 1; the task then unlocks and returns 0, with the line at
    1. *)
Lemma enable_returns_with_line_active :
  tasks example_enable_called = [pwm_call OpEnable] /\
  irq example_enable_called = None /\
  gpio_pwm (shared example_enable_called) = 0 /\
  steps example_enable_called example_enable_returned /\
  tasks example_enable_returned = [Ret 0] /\
  irq example_enable_returned = None /\
  lock (shared example_enable_returned) = None /\
  gpio_pwm (shared example_enable_returned) = 1 /\
  gpio_pwm (shared example_enable_returned) <>
    gpio_pwm (shared example_enable_called).
Proof.
  do 3 (split; [reflexivity|]). split.
  - unfold example_enable_called, example_enable_returned.
    task_step MutexLock.
    task_step (LoadB IS_RUNNING).
    task_step (StoreB IS_RUNNING true).
    task_step (HrtimerStart 0).
    eapply steps_step_l.
    { eapply step_irq_enter; reflexivity. }
    cbn.
    eapply steps_app.
    { eapply irq_run_steps. apply run_timer_off. reflexivity. }
    eapply steps_step_l.
    { eapply step_irq_exit. reflexivity. }
    cbn.
    task_step MutexUnlock.
    apply steps_refl.
  - do 4 (split; [reflexivity|]). vm_compute. discriminate.
Qed.

(** ** Consecutive firings *)

Lemma at_time_due l d :
  enqueued (timer d) = true -> 0 <= l ->
  hrtimer_due (at_time (expires (timer d) + l) d) = true.
Proof.
  intros Hq Hl. destruct d as [r p o a b k [e q n s] g]; cbn in *.
  unfold hrtimer_due; cbn. rewrite Hq. apply Z.leb_le. lia.
Qed.

Lemma at_time_frame now d :
  on_time (at_time now d) = on_time d /\
  off_time (at_time now d) = off_time d /\
  pin_on (at_time now d) = pin_on d /\
  expires (timer (at_time now d)) = expires (timer d) /\
  base_time (timer (at_time now d)) = now /\
  base_resolution (timer (at_time now d)) = base_resolution (timer d).
Proof. destruct d as [r p o a b k [e q n s] g]; cbn. tauto. Qed.

Lemma ideal_boundary_even e h asserted k :
  ideal_boundary e h h asserted k = e + Z.of_nat k * h.
Proof.
  revert e asserted. induction k as [|k IH]; intros e asserted.
  - cbn. lia.
  - cbn [ideal_boundary]. rewrite IH. destruct asserted; lia.
Qed.

Lemma boundaries_punctual on off lats :
  forall d k l,
    on_time d = on -> off_time d = off ->
    enqueued (timer d) = true ->
    base_resolution (timer d) <= Z.min on off ->
    Forall (fun l => 0 <= l < Z.min on off) lats ->
    nth_error lats k = Some l ->
    nth_error (boundaries lats d) k =
    Some (ideal_boundary (expires (timer d)) on off (pin_on d) k + l).
Proof.
  induction lats as [|l0 rest IH]; intros d k l Hon Hoff Hq Hres Hall Hk.
  - destruct k; discriminate.
  - inversion Hall as [|x xs Hl0 Hrest]; subst x xs.
    pose proof (at_time_due l0 d Hq (proj1 Hl0)) as Hd.
    destruct (at_time_frame (expires (timer d) + l0) d)
      as (Fon & Foff & Fpin & Fexp & Fnow & Fres).
    cbn [boundaries].
    remember (at_time (expires (timer d) + l0) d) as d1 eqn:Ed1.
    destruct (timer_fire d1) as [[d2 tr]|] eqn:Hf;
      [|rewrite (timer_fire_due _ Hd) in Hf; discriminate].
    destruct k as [|k].
    + cbn in Hk. inversion Hk; subst l0. cbn. rewrite Fnow. reflexivity.
    + cbn [nth_error] in *.
      destruct (timer_fire_frame _ _ _ Hf)
        as (_ & _ & Gon & Goff & _ & Gpin & _ & Gq & _ & Gres).
      assert (Hlat : latency d1 = l0)
        by (unfold latency; rewrite Fnow, Fexp; lia).
      assert (Hiv : phase_interval d1 = if pin_on d then off else on)
        by (unfold phase_interval; rewrite Fpin, Fon, Foff, Hon, Hoff;
            reflexivity).
      assert (Hexp : expires (timer d2) =
                     expires (timer d) + if pin_on d then off else on).
      { rewrite <- Fexp, <- Hiv.
        eapply timer_fire_punctual; [exact Hf| |].
        - rewrite Hlat, Hiv. destruct (pin_on d); lia.
        - rewrite Fres, Hiv. destruct (pin_on d); lia. }
      rewrite (IH d2 k l); try assumption.
      * rewrite Hexp, Gpin, Fpin. reflexivity.
      * rewrite Gon, Fon. assumption.
      * rewrite Goff, Foff. assumption.
      * rewrite Gres, Fres. assumption.
Qed.

(** C1 (amended): every firing forwards the timer from its previous
    expected expiry, never from the current time.  The new expiry is the
    old one plus a whole number, at least one, of intervals (on_time or
    off_time, raised to the resolution of the clock), just enough to lie
    after the current time.  It is exactly the old expiry plus on_time or
    off_time when the firing is served less than that interval after its
    expiry and the interval is not below the resolution.  Over consecutive
    firings with on_time and off_time fixed, each served less than the
    smaller of the two after its expiry, the k-th firing takes place at
    its ideal time plus its own latency only: with on_time = off_time = h,
    at the first expiry plus k * h plus the latency of that firing. *)
Theorem hrtimer_forward_from_expiry :
  (forall d d' tr,
     0 < base_resolution (timer d) ->
     timer_fire d = Some (d', tr) ->
     expires (timer d') =
       expires (timer d) +
       effective_interval d * (latency d / effective_interval d + 1) /\
     base_time (timer d) < expires (timer d') <=
       base_time (timer d) + effective_interval d) /\
  (forall d d' tr,
     timer_fire d = Some (d', tr) ->
     latency d < phase_interval d ->
     base_resolution (timer d) <= phase_interval d ->
     expires (timer d') = expires (timer d) + phase_interval d) /\
  (forall on off lats d k l,
     on_time d = on -> off_time d = off ->
     enqueued (timer d) = true ->
     base_resolution (timer d) <= Z.min on off ->
     Forall (fun l => 0 <= l < Z.min on off) lats ->
     nth_error lats k = Some l ->
     nth_error (boundaries lats d) k =
       Some (ideal_boundary (expires (timer d)) on off (pin_on d) k + l)) /\
  (forall e h asserted k,
     ideal_boundary e h h asserted k = e + Z.of_nat k * h).
Proof.
  split; [|split; [|split]].
  - intros d d' tr Hres Hf.
    pose proof (timer_fire_expires d d' tr Hres Hf) as He.
    split; [exact He|].
    destruct (hrtimer_due_inv d (timer_fire_some _ _ _ Hf)) as [_ H0].
    assert (Hm : 0 < effective_interval d)
      by (unfold effective_interval; lia).
    pose proof (Z.mul_div_le (latency d) (effective_interval d) Hm).
    pose proof (Z.mul_succ_div_gt (latency d) (effective_interval d) Hm).
    unfold latency in *. lia.
  - intros d d' tr. apply timer_fire_punctual.
  - intros on off lats d k l. apply boundaries_punctual.
  - intros e h asserted k. apply ideal_boundary_even.
Qed.

Lemma hrtimer_forward_from_expiry_witness :
  (exists d' tr,
     timer_fire example_started = Some (d', tr) /\
     expires (timer d') = 100 + 3000000) /\
  nth_error (boundaries [1; 2; 0; 1] example_started) 3 =
    Some (100 + 3000000 + 7000000 + 3000000 + 1).
Proof.
  split.
  - destruct (timer_fire example_started) as [[d' tr]|] eqn:Hf;
      [|discriminate Hf].
    exists d', tr. split; [reflexivity|].
    apply (proj1 (proj2 hrtimer_forward_from_expiry) example_started d' tr Hf).
    + vm_compute. reflexivity.
    + vm_compute. discriminate.
  - apply (proj1 (proj2 (proj2 hrtimer_forward_from_expiry))
             3000000 7000000 [1; 2; 0; 1] example_started 3%nat 1).
    + reflexivity.
    + reflexivity.
    + reflexivity.
    + vm_compute. discriminate.
    + repeat constructor; vm_compute; try reflexivity; discriminate.
    + reflexivity.
Defined.

(** C1, as stated, fails.  A firing served 10 ns after its expiry of 100
    with on_time = 3 is forwarded to 112, not to 100 + 3; and with a duty
    of zero (on_time = 0, off_time = 10) and no latency at all the firings
    fall at 100, 101, 111, 112, 122, ... against the ideal 100, 100, 110,
    110, 120, ...: the error grows by one resolution step every period. *)
Lemma late_firing_skips_intervals :
  (hrtimer_due example_late = true /\
   is_running example_late = true /\
   pin_on example_late = false /\
   expires (timer example_late) = 100 /\
   on_time example_late = 3 /\
   exists d' tr,
     timer_fire example_late = Some (d', tr) /\
     expires (timer d') = 112 /\
     expires (timer d') <>
       expires (timer example_late) + on_time example_late) /\
  boundaries [0; 0; 0; 0; 0; 0; 0] example_zero_duty =
    [100; 101; 111; 112; 122; 123; 133] /\
  map (ideal_boundary 100 0 10 false) (seq 0 7) =
    [100; 100; 110; 110; 120; 120; 130].
Proof.
  split; [|split; reflexivity].
  do 5 (split; [reflexivity|]).
  eexists. eexists. split; [reflexivity|].
  split; [reflexivity|]. vm_compute. discriminate.
Qed.

(** ** Acquisition failures *)

Lemma gpio_pwm_request_nomem env k :
  kzalloc_ok env = false -> gpio_pwm_request env k = (- ENOMEM, k).
Proof.
  intros H. unfold gpio_pwm_request, kzalloc. rewrite H. reflexivity.
Qed.

Lemma gpio_pwm_request_free_balanced cur env k k' :
  gpio_pwm_request env k = (0, k') ->
  exists k'',
    gpio_pwm_free cur k' = Some k'' /\
    kmem_live k'' = kmem_live k /\ gpio_claimed k'' = false.
Proof.
  intros H.
  destruct (gpio_pwm_request_success env k k' H) as (_ & _ & Hc & Hm & _).
  unfold gpio_pwm_free. rewrite Hc.
  rewrite run_disable_idle by reflexivity.
  eexists. split; [reflexivity|]. cbn. rewrite Hm. split; reflexivity.
Qed.

(** C8 (the code departs from it): when [kzalloc] fails, request returns
    -ENOMEM and has changed nothing.  When [kzalloc] succeeds and
    [gpiod_get] answers with an error pointer, request returns that error
    and leaves the record it allocated live: no [kfree] is reached, and the
    record is not attached to the pwm device, so [free] cannot release it
    either. *)
Theorem gpio_pwm_request_leaks_on_gpiod_error :
  (forall env k,
     kzalloc_ok env = false -> gpio_pwm_request env k = (- ENOMEM, k)) /\
  (forall env k,
     kzalloc_ok env = true -> IS_ERR (gpiod_get env) = true ->
     gpio_pwm_request env k =
       (gpiod_get env,
        mk_kernel (S (kmem_live k)) (gpio_claimed k) (chip_data k)
          (dmesg k ++ [ERR_NO_PWM_GPIO])) /\
     gpiod_get env < 0).
Proof.
  split; [exact gpio_pwm_request_nomem|].
  intros env k Ha Hg. unfold gpio_pwm_request, kzalloc. rewrite Ha, Hg.
  split; [reflexivity|].
  unfold IS_ERR in Hg. apply andb_prop in Hg. destruct Hg as [_ Hg].
  apply Z.ltb_lt in Hg. exact Hg.
Qed.

Lemma gpio_pwm_request_leaks_on_gpiod_error_witness :
  gpio_pwm_request (mk_request_env true (- EBUSY) true 100 1)
    (mk_kernel 0 false None []) =
  (- EBUSY, mk_kernel 1 false None [ERR_NO_PWM_GPIO]).
Proof.
  exact (proj1 (proj2 gpio_pwm_request_leaks_on_gpiod_error
                  (mk_request_env true (- EBUSY) true 100 1)
                  (mk_kernel 0 false None []) eq_refl eq_refl)).
Defined.

(** ** The mutex *)

Lemma exec_access_lock cur c d a d' :
  is_access c = true -> exec cur c d = Some (a, d') -> lock d' = lock d.
Proof.
  intros Hc He. destruct c; cbn in Hc; try discriminate; cbn in He.
  - inversion He; subst; reflexivity.
  - inversion He; subst. destruct f; destruct d; reflexivity.
  - inversion He; subst; reflexivity.
  - inversion He; subst. destruct f; destruct d; reflexivity.
  - inversion He; subst. destruct d; reflexivity.
  - inversion He; subst. destruct d; reflexivity.
  - inversion He; subst. destruct d; reflexivity.
  - destruct (hrtimer_forward_now interval (timer d)) as [n t].
    inversion He; subst. destruct d; reflexivity.
Qed.

Lemma bracketed_pwm_call o : bracketed (pwm_call o).
Proof.
  destruct o as [duty period|pol| |]; cbn.
  - split; [reflexivity|]. intros _. left. split; [reflexivity|].
    intros _. left. split; [reflexivity|].
    intros _. right. split; [reflexivity|]. exists 0. reflexivity.
  - split; [reflexivity|]. intros _. left. split; [reflexivity|].
    intros _. right. split; [reflexivity|]. exists 0. reflexivity.
  - split; [reflexivity|]. intros _. left. split; [reflexivity|].
    intros [|]; cbn.
    + right. split; [reflexivity|]. exists (- EBUSY). reflexivity.
    + left. split; [reflexivity|]. intros _.
      left. split; [reflexivity|]. intros _.
      right. split; [reflexivity|]. exists 0. reflexivity.
  - split; [reflexivity|]. intros _. left. split; [reflexivity|].
    intros [|]; cbn.
    + left. split; [reflexivity|]. intros _.
      left. split; [reflexivity|]. intros pol.
      left. split; [reflexivity|]. intros _.
      left. split; [reflexivity|]. intros _.
      left. split; [reflexivity|]. intros _.
      right. split; [reflexivity|]. exists 0. reflexivity.
    + right. split; [reflexivity|]. exists 0. reflexivity.
Qed.

Lemma lockless_gpio_pwm_timer : lockless gpio_pwm_timer.
Proof.
  cbn. split; [reflexivity|]. intros [|]; cbn.
  - split; [reflexivity|]. intros pol. split; [reflexivity|]. intros _.
    split; [reflexivity|]. intros _. split; [reflexivity|]. intros t.
    split; [reflexivity|]. intros _. exact I.
  - split; [reflexivity|]. intros pol. split; [reflexivity|]. intros _.
    split; [reflexivity|]. intros _. split; [reflexivity|]. intros t.
    split; [reflexivity|]. intros _. exact I.
Qed.

Lemma nth_error_set_nth_inv {A : Type} i (x : A) l j y :
  nth_error (set_nth i x l) j = Some y ->
  (j = i /\ y = x) \/ (j <> i /\ nth_error l j = Some y).
Proof.
  revert i j. induction l as [|z l IH]; intros i j H.
  - destruct i, j; discriminate.
  - destruct i as [|i], j as [|j]; cbn in H.
    + inversion H. left. split; reflexivity.
    + right. split; [discriminate|exact H].
    + right. split; [discriminate|exact H].
    + destruct (IH i j H) as [[H1 H2]|[H1 H2]].
      * left. split; congruence.
      * right. split; [congruence|exact H2].
Qed.

Lemma task_ok_lock d d' i p :
  lock d' = lock d -> task_ok d i p -> task_ok d' i p.
Proof. unfold task_ok. intros H. rewrite H. tauto. Qed.

Lemma mutex_inv_init d n : lock d = None -> mutex_inv (init_config d n).
Proof.
  intros Hl. split.
  - intros i p Hp. right. cbn in *. rewrite Hl. split; [discriminate|].
    left. apply nth_error_In in Hp. apply repeat_spec in Hp. subst. exact I.
  - intros p Hp. discriminate.
Qed.

Lemma mutex_inv_step cfg cfg' : mutex_inv cfg -> step cfg cfg' -> mutex_inv cfg'.
Proof.
  intros [Ht Hi] Hs.
  destruct Hs as [i c k a d' cfg Hn Hm He|i r o cfg Hn|cfg Hn Hd
                 |c k a d' cfg Hn He|r cfg Hn|dt cfg Hdt].
  - (* a task takes one action *)
    pose proof (Ht i _ Hn) as Hok. split; [|exact Hi].
    intros j p Hj. cbn in *.
    destruct Hok as [[Hown Hin]|[Hfree [Hidle|Hbr]]].
    + cbn in Hin. destruct Hin as [[Hacc Hk]|[Hc [r Hk]]].
      * pose proof (exec_access_lock _ _ _ _ _ Hacc He) as Hl.
        destruct (nth_error_set_nth_inv _ _ _ _ _ Hj) as [[-> ->]|[Hne Hj']].
        -- left. split; [congruence|apply Hk].
        -- apply (task_ok_lock (shared cfg)); [exact Hl|apply Ht; exact Hj'].
      * subst c. cbn in He. inversion He; subst a d'; clear He.
        destruct (nth_error_set_nth_inv _ _ _ _ _ Hj) as [[-> ->]|[Hne Hj']].
        -- right. split; [destruct (shared cfg); discriminate|].
           left. rewrite Hk. exact I.
        -- right.
           destruct (Ht j p Hj') as [[Hown' _]|[_ Hrest]];
             [rewrite Hown in Hown'; congruence|].
           split; [destruct (shared cfg); discriminate|exact Hrest].
    + destruct Hidle.
    + destruct Hbr as [Hc Hk]. subst c. cbn in He.
      destruct (lock (shared cfg)) eqn:Hl; [discriminate|].
      inversion He; subst a d'; clear He.
      destruct (nth_error_set_nth_inv _ _ _ _ _ Hj) as [[-> ->]|[Hne Hj']].
      * left. split; [destruct (shared cfg); reflexivity|apply Hk].
      * right.
        destruct (Ht j p Hj') as [[Hown' _]|[_ Hrest]];
          [rewrite Hl in Hown'; discriminate|].
        split; [|exact Hrest].
        destruct (shared cfg); cbn. congruence.
  - (* a task enters a call *)
    split; [|exact Hi]. intros j p Hj. cbn in *.
    destruct (nth_error_set_nth_inv _ _ _ _ _ Hj) as [[-> ->]|[Hne Hj']].
    + destruct (Ht i _ Hn) as [[_ []]|[Hfree _]].
      right. split; [exact Hfree|]. right. apply bracketed_pwm_call.
    + apply Ht. exact Hj'.
  - (* the callback begins *)
    split.
    + intros j p Hj. cbn in *.
      apply (task_ok_lock (shared cfg));
        [destruct (shared cfg); reflexivity|apply Ht; exact Hj].
    + intros p Hp. cbn in Hp. inversion Hp. apply lockless_gpio_pwm_timer.
  - (* the callback takes one action *)
    pose proof (Hi _ Hn) as [Hacc Hk]. split.
    + intros j p Hj. cbn in *.
      apply (task_ok_lock (shared cfg));
        [exact (exec_access_lock _ _ _ _ _ Hacc He)|apply Ht; exact Hj].
    + intros p Hp. cbn in Hp. inversion Hp. apply Hk.
  - (* the callback returns *)
    split.
    + intros j p Hj. cbn in *.
      apply (task_ok_lock (shared cfg));
        [destruct r; destruct (shared cfg); reflexivity|apply Ht; exact Hj].
    + intros p Hp. discriminate.
  - (* time passes *)
    split.
    + intros j p Hj. cbn in *.
      apply (task_ok_lock (shared cfg));
        [destruct (shared cfg); reflexivity|apply Ht; exact Hj].
    + exact Hi.
Qed.

Lemma mutex_inv_steps cfg cfg' :
  mutex_inv cfg -> steps cfg cfg' -> mutex_inv cfg'.
Proof.
  intros H Hs. induction Hs as [cfg|cfg cfg1 cfg2 _ IH Hstep].
  - exact H.
  - eapply mutex_inv_step; [apply IH; exact H|exact Hstep].
Qed.

Lemma task_at_access_owner cfg i :
  mutex_inv cfg -> task_at_access cfg i -> lock (shared cfg) = Some (Task i).
Proof.
  intros [Ht _] (c & k & Hn & Hacc).
  destruct (Ht i _ Hn) as [[Hown _]|[_ [[]|[Hc _]]]].
  - exact Hown.
  - subst c. discriminate.
Qed.

Lemma steps_example_locked :
  steps (init_config example_started 1) example_locked.
Proof.
  apply (steps_trans _
           (mk_config example_started [gpio_pwm_config 5 10] None)).
  - apply (steps_trans _ (init_config example_started 1));
      [apply steps_refl|].
    apply (step_call 0%nat 0 (OpConfig 5 10)
             (init_config example_started 1)).
    reflexivity.
  - apply (step_task 0%nat MutexLock
             (fun _ => act (StoreU ON_TIME (to_uint 5)) ;;
                       act (StoreU OFF_TIME (to_uint (int_sub 10 5))) ;;
                       act MutexUnlock ;; Ret 0)
             tt (set_lock (Some (Task 0%nat)) example_started)
             (mk_config example_started [gpio_pwm_config 5 10] None)).
    + reflexivity.
    + intros H. discriminate H.
    + reflexivity.
Qed.

(** C2 (amended): configure, set_polarity, enable and disable each take the
    mutex of the channel before their first access to the record and
    release it after their last, on every path, so that however tasks and
    the timer interrupt interleave, a task about to touch the record owns
    the mutex and no two tasks are at such an access at the same time.
    The timer callback never takes the mutex: it runs to completion while
    a task holds it. *)
Theorem pwm_ops_hold_mutex :
  (forall o, bracketed (pwm_call o)) /\
  (forall o cur d,
     lock d = None ->
     exists r d' tr,
       run cur (pwm_call o) d = Some (r, d', MutexLock :: tr) /\
       last tr MutexLock = MutexUnlock /\ lock d' = None) /\
  (forall d n cfg,
     lock d = None ->
     steps (init_config d n) cfg ->
     (forall i, task_at_access cfg i -> lock (shared cfg) = Some (Task i)) /\
     (forall i j, task_at_access cfg i -> task_at_access cfg j -> i = j)) /\
  lockless gpio_pwm_timer /\
  (forall d owner,
     exists d' tr,
       run HardIrq gpio_pwm_timer (set_lock (Some owner) d) =
         Some (HRTIMER_RESTART, d', tr) /\
       ~ In MutexLock tr /\ lock d' = Some owner).
Proof.
  split; [exact bracketed_pwm_call|]. split; [|split; [|split]].
  - intros o cur d Hl. destruct o as [duty period|pol| |].
    + eexists. eexists. eexists. unfold pwm_call.
      rewrite run_config by assumption.
      split; [reflexivity|]. split; [reflexivity|].
      destruct d; exact Hl.
    + eexists. eexists. eexists. unfold pwm_call.
      rewrite run_set_polarity by assumption.
      split; [reflexivity|]. split; [reflexivity|].
      destruct d; exact Hl.
    + unfold pwm_call. destruct (is_running d) eqn:Hr.
      * eexists. eexists. eexists.
        rewrite run_enable_busy by assumption.
        split; [reflexivity|]. split; [reflexivity|exact Hl].
      * eexists. eexists. eexists.
        rewrite run_enable_idle by assumption.
        split; [reflexivity|]. split; [reflexivity|].
        destruct d; exact Hl.
    + rewrite run_call_disable. destruct (is_running d) eqn:Hr.
      * eexists. eexists. eexists.
        rewrite run_disable_running by assumption.
        split; [reflexivity|]. split; [reflexivity|].
        destruct d; exact Hl.
      * eexists. eexists. eexists.
        rewrite run_disable_idle by assumption.
        split; [reflexivity|]. split; [reflexivity|exact Hl].
  - intros d n cfg Hl Hs.
    pose proof (mutex_inv_steps _ _ (mutex_inv_init d n Hl) Hs) as Hinv.
    split.
    + intros i Hi. apply task_at_access_owner; assumption.
    + intros i j Hi Hj.
      pose proof (task_at_access_owner cfg i Hinv Hi) as H1.
      pose proof (task_at_access_owner cfg j Hinv Hj) as H2.
      congruence.
  - exact lockless_gpio_pwm_timer.
  - intros d owner. destruct (pin_on d) eqn:Hp.
    + eexists. eexists.
      rewrite run_timer_on by (destruct d; exact Hp).
      split; [reflexivity|]. split.
      * cbn. intuition discriminate.
      * destruct d; reflexivity.
    + eexists. eexists.
      rewrite run_timer_off by (destruct d; exact Hp).
      split; [reflexivity|]. split.
      * cbn. intuition discriminate.
      * destruct d; reflexivity.
Qed.

Lemma pwm_ops_hold_mutex_witness :
  lock example_started = None /\
  steps (init_config example_started 1) example_locked /\
  task_at_access example_locked 0 /\
  lock (shared example_locked) = Some (Task 0).
Proof.
  assert (Ha : task_at_access example_locked 0).
  { exists (StoreU ON_TIME (to_uint 5)).
    exists (fun _ => act (StoreU OFF_TIME (to_uint (int_sub 10 5))) ;;
                     act MutexUnlock ;; Ret 0).
    split; reflexivity. }
  split; [reflexivity|]. split; [exact steps_example_locked|].
  split; [exact Ha|].
  exact (proj1 (proj1 (proj2 (proj2 pwm_ops_hold_mutex)) example_started
                  1%nat example_locked eq_refl steps_example_locked)
           0%nat Ha).
Defined.

(** C2, as stated, fails for the timer callback.  With one task inside
    configure, owning the mutex and about to store on_time, the timer
    interrupt begins its callback and stands at its own first access to
    the record, without the mutex: two threads of execution are touching
    the record at once. *)
Lemma timer_callback_ignores_mutex :
  steps (init_config example_started 1) example_race /\
  lock (shared example_race) = Some (Task 0) /\
  task_at_access example_race 0 /\
  irq_at_access example_race /\
  ~ bracketed gpio_pwm_timer.
Proof.
  split; [|split; [reflexivity|split; [|split]]].
  - apply (steps_trans _ example_locked); [exact steps_example_locked|].
    apply (step_irq_enter example_locked); reflexivity.
  - eexists. eexists. split; reflexivity.
  - eexists. eexists. split; reflexivity.
  - cbn. intros [H _]. discriminate H.
Qed.

(** ** Between critical sections *)

Lemma rely_refl d b : rely d b d b.
Proof. split; reflexivity. Qed.

Lemma rely_trans d b d1 b1 d2 b2 :
  rely d b d1 b1 -> rely d1 b1 d2 b2 -> rely d b d2 b2.
Proof. unfold rely. intros [H1 H2] [H3 H4]. split; congruence. Qed.

Lemma settled_rely d b d' b' : rely d b d' b' -> settled d b -> settled d' b'.
Proof. unfold rely, settled. intros [H1 H2] H. congruence. Qed.

Lemma cs_safe_rely cur p d b d' b' :
  rely d b d' b' -> cs_safe cur p d b -> cs_safe cur p d' b'.
Proof.
  intros Hr H. destruct p as [r|c k]; [exact H|].
  cbn [cs_safe] in *. destruct H as [[Hacc H]|[Hc [Hk H]]].
  - left. split; [exact Hacc|]. intros d1 b1 Hr1. apply H.
    eapply rely_trans; eassumption.
  - right. split; [exact Hc|]. split; [exact Hk|]. intros d1 b1 Hr1.
    apply H. eapply rely_trans; eassumption.
Qed.

Lemma hrtimer_forward_enqueued now iv t :
  enqueued (snd (hrtimer_forward now iv t)) = enqueued t.
Proof.
  unfold hrtimer_forward.
  repeat match goal with |- context [if ?c then _ else _] =>
    destruct c eqn:? end; cbn; congruence.
Qed.

Lemma exec_irq_frame cur c d a d' :
  irq_cmd c = true -> exec cur c d = Some (a, d') ->
  is_running d' = is_running d /\
  enqueued (timer d') = enqueued (timer d) /\
  lock d' = lock d.
Proof.
  intros Hc He. destruct c; cbn in Hc; try discriminate; cbn in He.
  - inversion He; subst. auto.
  - destruct f; try discriminate. inversion He; subst.
    destruct d; cbn; auto.
  - inversion He; subst. auto.
  - inversion He; subst. destruct d; cbn; auto.
  - pose proof (hrtimer_forward_enqueued (base_time (timer d)) interval
                  (timer d)) as Hq.
    fold (hrtimer_forward_now interval (timer d)) in Hq.
    destruct (hrtimer_forward_now interval (timer d)) as [n t].
    inversion He; subst. destruct d; cbn in *; auto.
Qed.

Lemma irq_ok_gpio_pwm_timer : irq_ok gpio_pwm_timer.
Proof.
  cbn. split; [reflexivity|]. intros [|]; cbn.
  - split; [reflexivity|]. intros pol. split; [reflexivity|]. intros _.
    split; [reflexivity|]. intros _. split; [reflexivity|]. intros t.
    split; [reflexivity|]. intros _. reflexivity.
  - split; [reflexivity|]. intros pol. split; [reflexivity|]. intros _.
    split; [reflexivity|]. intros _. split; [reflexivity|]. intros t.
    split; [reflexivity|]. intros _. reflexivity.
Qed.

Lemma cs_safe_access cur c (k : reply c -> prog Z) d b :
  is_access c = true ->
  (forall d1 b1,
     rely d b d1 b1 -> (c = HrtimerCancel -> b1 = false) ->
     forall a d2,
       exec cur c d1 = Some (a, d2) -> cs_safe cur (k a) d2 b1) ->
  cs_safe cur (Vis c k) d b.
Proof. intros Hacc H. cbn [cs_safe]. left. split; assumption. Qed.

(** The last step of every critical section. *)
Lemma cs_safe_unlock cur (r : Z) d b :
  settled d b -> cs_safe cur (Vis MutexUnlock (fun _ => Ret r)) d b.
Proof.
  intros Hs. cbn [cs_safe]. right. split; [reflexivity|].
  split; [exists r; reflexivity|].
  intros d1 b1 Hr. eapply settled_rely; eassumption.
Qed.

(** A step that changes neither is_running nor the state of the timer. *)
Lemma cs_safe_neutral cur c (k : reply c -> prog Z) d b :
  is_access c = true ->
  (forall d1 a d2,
     exec cur c d1 = Some (a, d2) ->
     is_running d2 = is_running d1 /\
     enqueued (timer d2) = enqueued (timer d1)) ->
  (forall a d2 b2, rely d b d2 b2 -> cs_safe cur (k a) d2 b2) ->
  cs_safe cur (Vis c k) d b.
Proof.
  intros Hacc Hn Hk. apply cs_safe_access; [exact Hacc|].
  intros d1 b1 Hr _ a d2 He. apply Hk.
  destruct (Hn d1 a d2 He) as [H1 H2].
  destruct Hr as [H3 H4]. unfold rely, timer_active in *.
  split; congruence.
Qed.

Ltac prog_cbn :=
  cbn [pwm_call gpio_pwm_config gpio_pwm_set_polarity gpio_pwm_enable
       gpio_pwm_disable gpio_pwm_off gpio_pwm_on bind act entry_safe negb].

Ltac neutral_step :=
  apply cs_safe_neutral;
  [reflexivity
  |let x := fresh "x" in let a := fresh "a" in let y := fresh "y" in
   let He := fresh "He" in
   intros x a y He; cbn in He; inversion He; subst;
   try (destruct x; cbn); auto
  |].

Lemma entry_safe_pwm_call o : entry_safe (pwm_call o).
Proof.
  destruct o as [duty period|pol| |]; prog_cbn.
  - split; [reflexivity|]. intros cur d b _ Hs.
    neutral_step. intros _ d2 b2 Hr2.
    pose proof (settled_rely _ _ _ _ Hr2 Hs) as Hs2.
    neutral_step. intros _ d3 b3 Hr3.
    apply cs_safe_unlock. eapply settled_rely; eassumption.
  - split; [reflexivity|]. intros cur d b _ Hs.
    neutral_step. intros _ d2 b2 Hr2.
    apply cs_safe_unlock. eapply settled_rely; eassumption.
  - split; [reflexivity|]. intros cur d b _ Hs.
    apply cs_safe_access; [reflexivity|].
    intros d1 b1 Hr1 _ a d2 He. cbn in He. inversion He; subst a d2.
    pose proof (settled_rely _ _ _ _ Hr1 Hs) as Hs1.
    destruct (is_running d1) eqn:Erun; prog_cbn.
    + apply cs_safe_unlock. exact Hs1.
    + apply cs_safe_access; [reflexivity|].
      intros d3 b3 Hr3 _ a3 d4 He3. cbn in He3. inversion He3; subst a3 d4.
      apply cs_safe_access; [reflexivity|].
      intros d5 b5 Hr5 _ a5 d6 He5. cbn in He5. inversion He5; subst a5 d6.
      apply cs_safe_unlock.
      unfold settled, rely, timer_active in *. destruct Hr3 as [H1 H2].
      destruct Hr5 as [H3 H4].
      destruct d3 as [r3 p3 o3 x3 y3 l3 [e3 q3 n3 s3] g3].
      destruct d5 as [r5 p5 o5 x5 y5 l5 [e5 q5 n5 s5] g5].
      cbn in *. congruence.
  - split; [reflexivity|]. intros cur d b _ Hs.
    apply cs_safe_access; [reflexivity|].
    intros d1 b1 Hr1 _ a d2 He. cbn in He. inversion He; subst a d2.
    pose proof (settled_rely _ _ _ _ Hr1 Hs) as Hs1.
    destruct (is_running d1) eqn:Erun; prog_cbn.
    + apply cs_safe_access; [reflexivity|].
      intros d3 b3 Hr3 Hwait a3 d4 He3. cbn in He3.
      inversion He3; subst a3 d4. clear He3.
      specialize (Hwait eq_refl). subst b3.
      assert (Hoff : forall x bx,
                rely (set_timer
                        (mk_hrtimer (expires (timer d3)) false
                           (base_time (timer d3))
                           (base_resolution (timer d3))) d3) false x bx ->
                timer_active x bx = false).
      { intros x bx [_ Hx]. rewrite Hx. destruct d3; reflexivity. }
      neutral_step. intros pol d5 b5 Hr5.
      neutral_step. intros _ d6 b6 Hr6.
      neutral_step. intros _ d7 b7 Hr7.
      apply cs_safe_access; [reflexivity|].
      intros d8 b8 Hr8 _ a8 d9 He8. cbn in He8. inversion He8; subst a8 d9.
      apply cs_safe_unlock.
      pose proof (Hoff d8 b8
                    (rely_trans _ _ _ _ _ _
                       (rely_trans _ _ _ _ _ _
                          (rely_trans _ _ _ _ _ _ Hr5 Hr6) Hr7) Hr8)) as H.
      unfold settled, timer_active in *.
      destruct d8 as [r8 p8 o8 x8 y8 l8 [e8 q8 n8 s8] g8]. cbn in *.
      congruence.
    + apply cs_safe_unlock. exact Hs1.
Qed.

Lemma nth_error_set_nth_eq {A : Type} i (x y : A) l :
  nth_error l i = Some y -> nth_error (set_nth i x l) i = Some x.
Proof.
  revert i. induction l as [|z l IH]; intros i H.
  - destruct i; discriminate.
  - destruct i as [|i]; cbn in *; [reflexivity|apply IH; exact H].
Qed.

Lemma settled_set_lock v d b : settled d b -> settled (set_lock v d) b.
Proof. destruct d; exact (fun H => H). Qed.

Lemma race_inv_init d n :
  lock d = None -> is_running d = enqueued (timer d) ->
  race_inv (init_config d n).
Proof.
  intros Hl Hq. split; [intros p Hp; discriminate|].
  cbn. rewrite Hl. split.
  - unfold settled, timer_active. cbn. rewrite Hq.
    destruct (enqueued (timer d)); reflexivity.
  - intros i p Hp. apply nth_error_In in Hp. apply repeat_spec in Hp.
    subst. exact I.
Qed.

(** Steps of the interrupt and of the clock respect [rely]. *)
Lemma race_inv_env cfg d' irq' :
  race_inv cfg ->
  lock d' = lock (shared cfg) ->
  rely (shared cfg) (in_callback cfg) d'
    (in_callback (mk_config d' (tasks cfg) irq')) ->
  (forall p, irq' = Some p -> irq_ok p) ->
  race_inv (mk_config d' (tasks cfg) irq').
Proof.
  intros [Hi Hinv] Hl Hr Hi'. split; [exact Hi'|].
  cbn [shared tasks]. rewrite Hl.
  destruct (lock (shared cfg)) as [[i|]|].
  - destruct Hinv as [(p & Hp & Hsafe) Hothers]. split; [|exact Hothers].
    exists p. split; [exact Hp|].
    eapply cs_safe_rely; eassumption.
  - exact Hinv.
  - destruct Hinv as [Hs Hall]. split; [|exact Hall].
    eapply settled_rely; eassumption.
Qed.

Lemma race_inv_step cfg cfg' : race_inv cfg -> step cfg cfg' -> race_inv cfg'.
Proof.
  intros Hinv Hs.
  destruct Hs as [i c k a d' cfg Hn Hm He|i r o cfg Hn|cfg Hn Hd
                 |c k a d' cfg Hn He|r cfg Hn|dt cfg Hdt].
  - (* a task takes one action *)
    destruct Hinv as [Hi Hinv]. split; [exact Hi|]. cbn [shared tasks irq].
    destruct (lock (shared cfg)) as [[o|]|] eqn:Hl.
    + destruct Hinv as [(p & Hp & Hsafe) Hothers].
      destruct (Nat.eq_dec i o) as [->|Hne].
      * rewrite Hn in Hp. inversion Hp; subst p. clear Hp.
        cbn [cs_safe] in Hsafe.
        destruct Hsafe as [[Hacc Hk]|[Hc [[r Hr] Hset]]].
        -- rewrite (exec_access_lock _ _ _ _ _ Hacc He), Hl.
           split.
           ++ exists (k a). split.
              ** eapply nth_error_set_nth_eq. exact Hn.
              ** apply (Hk _ _ (rely_refl _ _)); [|exact He].
                 intros Hc. unfold in_callback. rewrite (Hm Hc).
                 reflexivity.
           ++ intros j p Hj Hp.
              destruct (nth_error_set_nth_inv _ _ _ _ _ Hp)
                as [[-> _]|[_ Hp']]; [congruence|].
              eapply Hothers; eassumption.
        -- subst c. cbn in He. inversion He; subst a d'. clear He.
           replace (lock (set_lock None (shared cfg))) with (@None context)
             by (destruct (shared cfg); reflexivity).
           split.
           ++ apply settled_set_lock. apply Hset. apply rely_refl.
           ++ intros j p Hp.
              destruct (nth_error_set_nth_inv _ _ _ _ _ Hp)
                as [[-> ->]|[Hj Hp']].
              ** rewrite Hr. exact I.
              ** eapply Hothers; eassumption.
      * pose proof (Hothers i _ Hne Hn) as Hentry. cbn in Hentry.
        destruct Hentry as [Hc _]. subst c. cbn in He. rewrite Hl in He.
        discriminate.
    + destruct Hinv.
    + destruct Hinv as [Hset Hall].
      pose proof (Hall i _ Hn) as Hentry. cbn in Hentry.
      destruct Hentry as [Hc Hk]. subst c. cbn in He. rewrite Hl in He.
      inversion He; subst a d'. clear He.
      replace (lock (set_lock (Some (Task i)) (shared cfg)))
        with (Some (Task i)) by (destruct (shared cfg); reflexivity).
      split.
      * exists (k tt). split.
        -- eapply nth_error_set_nth_eq. exact Hn.
        -- apply Hk. apply settled_set_lock. exact Hset.
      * intros j p Hj Hp.
        destruct (nth_error_set_nth_inv _ _ _ _ _ Hp)
          as [[-> _]|[_ Hp']]; [congruence|].
        eapply Hall; eassumption.
  - (* a task enters a call *)
    destruct Hinv as [Hi Hinv]. split; [exact Hi|]. cbn [shared tasks irq].
    destruct (lock (shared cfg)) as [[w|]|] eqn:Hl.
    + destruct Hinv as [(p & Hp & Hsafe) Hothers].
      destruct (Nat.eq_dec i w) as [->|Hne].
      * rewrite Hn in Hp. inversion Hp; subst p. destruct Hsafe.
      * split.
        -- exists p. split; [|exact Hsafe].
           clear - Hp Hne. revert i w Hp Hne.
           induction (tasks cfg) as [|z l IH]; intros i w Hp Hne.
           ++ destruct w; discriminate.
           ++ destruct i as [|i], w as [|w]; cbn in *;
                try congruence.
              apply IH; [exact Hp|congruence].
        -- intros j q Hj Hq.
           destruct (nth_error_set_nth_inv _ _ _ _ _ Hq)
             as [[-> ->]|[_ Hq']].
           ++ apply entry_safe_pwm_call.
           ++ eapply Hothers; eassumption.
    + destruct Hinv.
    + destruct Hinv as [Hset Hall]. split; [exact Hset|].
      intros j q Hq.
      destruct (nth_error_set_nth_inv _ _ _ _ _ Hq) as [[-> ->]|[_ Hq']].
      * apply entry_safe_pwm_call.
      * eapply Hall; eassumption.
  - (* the callback begins *)
    apply race_inv_env; try assumption.
    + destruct (shared cfg); reflexivity.
    + unfold hrtimer_due in Hd. apply andb_prop in Hd. destruct Hd as [Hq _].
      unfold rely, in_callback, timer_active. cbn [irq]. rewrite Hn, Hq.
      destruct (shared cfg) as [r p o x y l [e q n s] g]. cbn.
      split; reflexivity.
    + intros p Hp. inversion Hp. apply irq_ok_gpio_pwm_timer.
  - (* the callback takes one action *)
    destruct (proj1 Hinv _ Hn) as [Hc Hk].
    destruct (exec_irq_frame _ _ _ _ _ Hc He) as (H1 & H2 & H3).
    apply race_inv_env; try assumption.
    + unfold rely, in_callback, timer_active. cbn [irq]. rewrite Hn, H1, H2.
      split; reflexivity.
    + intros p Hp. inversion Hp. apply Hk.
  - (* the callback returns *)
    pose proof (proj1 Hinv _ Hn) as Hr. cbn in Hr. subst r.
    apply race_inv_env; try assumption.
    + destruct (shared cfg); reflexivity.
    + unfold rely, in_callback, timer_active. cbn [irq]. rewrite Hn.
      destruct (shared cfg) as [r p o x y l [e q n s] g]. cbn.
      split; [reflexivity|]. destruct q; reflexivity.
    + intros p Hp. discriminate.
  - (* time passes *)
    apply race_inv_env; try assumption.
    + destruct (shared cfg) as [r p o x y l [e q n s] g]; reflexivity.
    + unfold rely, in_callback, timer_active. cbn [irq].
      destruct (shared cfg) as [r p o x y l [e q n s] g]. cbn.
      split; reflexivity.
    + exact (proj1 Hinv).
Qed.

Lemma race_inv_steps cfg cfg' :
  race_inv cfg -> steps cfg cfg' -> race_inv cfg'.
Proof.
  intros H Hs. induction Hs as [cfg|cfg cfg1 cfg2 _ IH Hstep].
  - exact H.
  - eapply race_inv_step; [apply IH; exact H|exact Hstep].
Qed.

(** C9: a successful request leaves the channel stopped, with normal
    polarity, the line at the inactive level and the timer idle.  In every
    state the channel reaches from there by calls of configure, set_polarity, enable and disable, firings of the
    timer and the passing of time, is_running is clear exactly when the
    timer is out of the queue and set exactly when a firing is pending, and
    a stopped channel has no firing to take.  The same holds when tasks
    and the timer interrupt interleave action by action: whenever no task
    holds the mutex, is_running tells whether the timer is active (queued,
    or in its callback and about to be queued again). *)
Theorem running_iff_timer_pending :
  (forall env k k' d,
     gpio_pwm_request env k = (0, k') -> chip_data k' = Some d ->
     is_running d = false /\ polarity d = false /\
     gpio_pwm d = inactive_level d /\ enqueued (timer d) = false /\
     lock d = None) /\
  (forall d,
     reachable d ->
     (is_running d = false <-> enqueued (timer d) = false) /\
     (is_running d = true <-> enqueued (timer d) = true) /\
     (is_running d = false -> timer_fire d = None)) /\
  (forall d n cfg,
     reachable d ->
     steps (init_config d n) cfg ->
     lock (shared cfg) = None ->
     is_running (shared cfg) = timer_active (shared cfg) (in_callback cfg)).
Proof.
  split; [|split].
  - intros env k k' d Hreq Hd.
    destruct (gpio_pwm_request_success env k k' Hreq) as (_ & _ & Hc & _).
    rewrite Hc in Hd. inversion Hd; subst. cbn. tauto.
  - intros d Hr. destruct (reachable_chan_inv d Hr) as (_ & Hq & _).
    rewrite Hq. repeat split; try tauto.
    intros H. apply timer_fire_idle. assumption.
  - intros d n cfg Hr Hs Hl.
    destruct (reachable_chan_inv d Hr) as (Hl0 & Hq & _).
    pose proof (race_inv_steps _ _ (race_inv_init d n Hl0 Hq) Hs) as [_ H].
    rewrite Hl in H. exact (proj1 H).
Qed.

Lemma running_iff_timer_pending_witness :
  reachable example_started /\
  steps (init_config example_started 1) example_firing /\
  lock (shared example_firing) = None /\
  (is_running example_started = true <->
   enqueued (timer example_started) = true) /\
  is_running (shared example_firing) =
    timer_active (shared example_firing) (in_callback example_firing).
Proof.
  assert (Hs : steps (init_config example_started 1) example_firing).
  { apply (steps_trans _ (init_config example_started 1));
      [apply steps_refl|].
    apply (step_irq_enter (init_config example_started 1)); reflexivity. }
  split; [exact reachable_example_started|].
  split; [exact Hs|]. split; [reflexivity|]. split.
  - exact (proj1 (proj2 (proj1 (proj2 running_iff_timer_pending)
                           example_started reachable_example_started))).
  - exact (proj2 (proj2 running_iff_timer_pending) example_started 1%nat
             example_firing reachable_example_started Hs eq_refl).
Defined.

(** * Further properties of the driver *)

(** ** Polarity *)

Lemma other_polarity_flips d :
  negb (pwm_polarity_eqb (other_polarity d) PWM_POLARITY_NORMAL) =
  negb (polarity d).
Proof. unfold other_polarity. destruct (polarity d); reflexivity. Qed.

(** X1: set_polarity records whether the requested polarity differs from
    PWM_POLARITY_NORMAL and returns 0.  It writes neither the line nor the
    timer, and leaves is_running, pin_on, on_time and off_time alone; of
    two calls in a row the second decides. *)
Theorem gpio_pwm_set_polarity_effect :
  forall cur pol d,
    lock d = None ->
    exists d' tr,
      run cur (gpio_pwm_set_polarity pol) d = Some (0, d', tr) /\
      (polarity d' = true <-> pol = PWM_POLARITY_INVERSED) /\
      (forall c, In c tr -> is_access c = true -> c = StoreB POLARITY (polarity d')) /\
      gpio_pwm d' = gpio_pwm d /\ timer d' = timer d /\
      is_running d' = is_running d /\ pin_on d' = pin_on d /\
      on_time d' = on_time d /\ off_time d' = off_time d /\
      lock d' = None /\
      (forall cur2 pol2,
         exists d'' tr2,
           run cur2 (gpio_pwm_set_polarity pol2) d' = Some (0, d'', tr2) /\
           run cur2 (gpio_pwm_set_polarity pol2) d = Some (0, d'', tr2)).
Proof.
  intros cur pol d Hl. eexists. eexists.
  rewrite run_set_polarity by assumption.
  split; [reflexivity|]. split.
  { destruct pol; destruct d; cbn; split; intros H; congruence. }
  split.
  { intros c Hc Hacc. cbn in Hc.
    destruct Hc as [<-|[<-|[<-|[]]]]; try discriminate.
    destruct d; reflexivity. }
  do 7 (split; [destruct d; try assumption; reflexivity|]).
  intros cur2 pol2. eexists. eexists.
  rewrite !run_set_polarity by (destruct d; assumption).
  split; [reflexivity|]. destruct d; reflexivity.
Qed.

Lemma gpio_pwm_set_polarity_effect_witness :
  lock example_started = None /\
  exists d' tr,
    run (Task 0) (gpio_pwm_set_polarity PWM_POLARITY_INVERSED)
      example_started = Some (0, d', tr) /\
    polarity d' = true /\ gpio_pwm d' = gpio_pwm example_started.
Proof.
  split; [reflexivity|].
  destruct (gpio_pwm_set_polarity_effect (Task 0) PWM_POLARITY_INVERSED
              example_started eq_refl)
    as (d' & tr & H1 & H2 & _ & H3 & _).
  exists d', tr. split; [exact H1|]. split; [|exact H3].
  apply H2. reflexivity.
Defined.

(** X2: set_polarity does not drive the line again.  On a stopped channel
    whose line rests at the inactive level, switching to the other
    polarity leaves the line where it was, which is now the active level;
    and disable, a no-op on a stopped channel, does not bring it back. *)
Theorem set_polarity_leaves_line_active :
  forall cur d,
    lock d = None -> is_running d = false ->
    gpio_pwm d = inactive_level d ->
    exists d1 tr1 tr2,
      run cur (gpio_pwm_set_polarity (other_polarity d)) d =
        Some (0, d1, tr1) /\
      run cur gpio_pwm_disable d1 = Some (tt, d1, tr2) /\
      gpio_pwm d1 = gpio_pwm d /\
      gpio_pwm d1 = active_level d1 /\
      gpio_pwm d1 <> inactive_level d1.
Proof.
  intros cur d Hl Hr Hg. eexists. eexists. eexists.
  rewrite run_set_polarity by assumption.
  split; [reflexivity|].
  rewrite other_polarity_flips.
  rewrite run_disable_idle by (destruct d; assumption).
  split; [reflexivity|].
  destruct d as [r p o a b l t g]; cbn in *.
  unfold inactive_level, active_level in *; cbn in *.
  subst g. destruct p; cbn; repeat split; try reflexivity; discriminate.
Qed.

Lemma set_polarity_leaves_line_active_witness :
  lock (fresh 0 1) = None /\ is_running (fresh 0 1) = false /\
  gpio_pwm (fresh 0 1) = inactive_level (fresh 0 1) /\
  exists d1 tr1,
    run (Task 0) (gpio_pwm_set_polarity PWM_POLARITY_INVERSED) (fresh 0 1) =
      Some (0, d1, tr1) /\
    gpio_pwm d1 = 0 /\ active_level d1 = 0.
Proof.
  split; [reflexivity|]. split; [reflexivity|]. split; [reflexivity|].
  destruct (set_polarity_leaves_line_active (Task 0) (fresh 0 1)
              eq_refl eq_refl eq_refl)
    as (d1 & tr1 & tr2 & H1 & _ & H2 & H3 & _).
  exists d1, tr1. split; [exact H1|]. split; [exact H2|].
  rewrite <- H3. exact H2.
Defined.

(** X3: when the polarity is switched while the line is at the level of
    the current phase, the next firing toggles pin_on but writes the
    level the line already has: that phase boundary shows no edge. *)
Theorem polarity_switch_hides_next_edge :
  forall cur d,
    lock d = None -> hrtimer_due d = true ->
    gpio_pwm d = level_of_phase d ->
    exists d1 tr1 d2 tr2,
      run cur (gpio_pwm_set_polarity (other_polarity d)) d =
        Some (0, d1, tr1) /\
      timer_fire d1 = Some (d2, tr2) /\
      pin_on d2 = negb (pin_on d) /\
      In (GpiodSetValue (gpio_pwm d)) tr2 /\
      gpio_pwm d2 = gpio_pwm d.
Proof.
  intros cur d Hl Hd Hg. eexists. eexists.
  rewrite run_set_polarity by assumption.
  rewrite other_polarity_flips.
  assert (Hd1 : hrtimer_due (set_polarity (negb (polarity d)) d) = true)
    by (destruct d; exact Hd).
  eexists. eexists. split; [reflexivity|].
  rewrite (timer_fire_due _ Hd1). split; [reflexivity|].
  destruct d as [r p o a b l t g]; cbn in *.
  unfold level_of_phase, phase_level, active_level, inactive_level in *;
    cbn in *.
  subst g. split; [reflexivity|].
  destruct p, o; cbn; auto.
Qed.

Lemma polarity_switch_hides_next_edge_witness :
  lock example_started = None /\ hrtimer_due example_started = true /\
  gpio_pwm example_started = level_of_phase example_started /\
  exists d1 tr1 d2 tr2,
    run (Task 0) (gpio_pwm_set_polarity PWM_POLARITY_INVERSED)
      example_started = Some (0, d1, tr1) /\
    timer_fire d1 = Some (d2, tr2) /\
    pin_on d2 = true /\ gpio_pwm d2 = 0.
Proof.
  split; [reflexivity|]. split; [reflexivity|]. split; [reflexivity|].
  destruct (polarity_switch_hides_next_edge (Task 0) example_started
              eq_refl eq_refl eq_refl)
    as (d1 & tr1 & d2 & tr2 & H1 & H2 & H3 & _ & H4).
  exists d1, tr1, d2, tr2. repeat split; assumption.
Defined.

(** X4: the polarity decides the level a firing writes and nothing else:
    the same firing under the other polarity writes the opposite level
    and leaves pin_on and the timer exactly as under this one. *)
Theorem polarity_inverts_level_only :
  forall d,
    hrtimer_due d = true ->
    exists e tr e' tr',
      timer_fire d = Some (e, tr) /\
      timer_fire (set_polarity (negb (polarity d)) d) = Some (e', tr') /\
      gpio_pwm e' = 1 - gpio_pwm e /\
      pin_on e' = pin_on e /\
      timer e' = timer e /\
      is_running e' = is_running e.
Proof.
  intros d Hd.
  assert (Hd1 : hrtimer_due (set_polarity (negb (polarity d)) d) = true)
    by (destruct d; exact Hd).
  eexists. eexists. eexists. eexists.
  rewrite (timer_fire_due _ Hd), (timer_fire_due _ Hd1).
  split; [reflexivity|]. split; [reflexivity|].
  destruct d as [r p o a b l t g]; cbn in *.
  unfold phase_level, phase_interval, active_level, inactive_level; cbn.
  destruct p, o; cbn; repeat split; reflexivity.
Qed.

Lemma polarity_inverts_level_only_witness :
  hrtimer_due example_started = true /\
  exists e tr e' tr',
    timer_fire example_started = Some (e, tr) /\
    timer_fire (set_polarity true example_started) = Some (e', tr') /\
    gpio_pwm e = 1 /\ gpio_pwm e' = 0.
Proof.
  split; [reflexivity|].
  destruct (polarity_inverts_level_only example_started eq_refl)
    as (e & tr & e' & tr' & H1 & H2 & H3 & _).
  exists e, tr, e', tr'. split; [exact H1|]. split; [exact H2|].
  assert (He : gpio_pwm e = 1).
  { assert (H : timer_fire example_started =
                  Some (e, tr)) by exact H1.
    vm_compute in H. inversion H. reflexivity. }
  split; [exact He|]. rewrite H3, He. reflexivity.
Defined.

(** ** Firings *)

(** X5: a firing toggles pin_on, puts the line at the level of the phase
    it begins and moves the expiry; it never changes is_running, polarity,
    on_time, off_time, the mutex, the clock or its resolution, and it
    leaves the timer queued, with an expiry strictly later than before
    when the resolution of the clock is positive. *)
Theorem timer_fire_changes_only_phase :
  forall d d' tr,
    timer_fire d = Some (d', tr) ->
    is_running d' = is_running d /\ polarity d' = polarity d /\
    on_time d' = on_time d /\ off_time d' = off_time d /\
    lock d' = lock d /\
    base_time (timer d') = base_time (timer d) /\
    base_resolution (timer d') = base_resolution (timer d) /\
    pin_on d' = negb (pin_on d) /\
    gpio_pwm d' = level_of_phase d' /\
    enqueued (timer d') = true /\
    (0 < base_resolution (timer d) -> expires (timer d) < expires (timer d')).
Proof.
  intros d d' tr Hf.
  destruct (timer_fire_frame _ _ _ Hf)
    as (H1 & H2 & H3 & H4 & H5 & H6 & H7 & H8 & H9 & H10).
  do 8 (split; [assumption|]).
  split.
  { rewrite H7. unfold level_of_phase, phase_level, active_level,
      inactive_level. rewrite H6, H2. destruct (pin_on d); reflexivity. }
  split; [assumption|].
  intros Hres. rewrite (timer_fire_expires d d' tr Hres Hf).
  destruct (hrtimer_due_inv d (timer_fire_some _ _ _ Hf)) as [_ H0].
  assert (Hm : 0 < effective_interval d) by (unfold effective_interval; lia).
  assert (0 <= latency d / effective_interval d)
    by (apply Z.div_pos; lia).
  nia.
Qed.

Lemma timer_fire_changes_only_phase_witness :
  exists d' tr,
    timer_fire example_late = Some (d', tr) /\
    is_running d' = true /\ on_time d' = 3 /\ off_time d' = 7 /\
    pin_on d' = true /\ expires (timer example_late) < expires (timer d').
Proof.
  destruct (timer_fire example_late) as [[d' tr]|] eqn:Hf;
    [|discriminate Hf].
  exists d', tr. split; [reflexivity|].
  destruct (timer_fire_changes_only_phase example_late d' tr Hf)
    as (H1 & _ & H3 & H4 & _ & _ & _ & H8 & _ & _ & H11).
  split; [exact H1|]. split; [exact H3|]. split; [exact H4|].
  split; [exact H8|]. apply H11. vm_compute. reflexivity.
Defined.

Lemma levels_alternate_aux lats :
  forall d k l,
    enqueued (timer d) = true ->
    Forall (fun l => 0 <= l) lats ->
    nth_error lats k = Some l ->
    nth_error (levels lats d) k =
    Some (if xorb (Nat.even k) (pin_on d)
          then active_level d else inactive_level d).
Proof.
  induction lats as [|l0 rest IH]; intros d k l Hq Hall Hk.
  - destruct k; discriminate.
  - inversion Hall as [|x xs Hl0 Hrest]; subst x xs.
    pose proof (at_time_due l0 d Hq Hl0) as Hd.
    cbn [levels].
    remember (at_time (expires (timer d) + l0) d) as d1 eqn:Ed1.
    destruct (timer_fire d1) as [[d2 tr]|] eqn:Hf;
      [|rewrite (timer_fire_due _ Hd) in Hf; discriminate].
    destruct (timer_fire_frame _ _ _ Hf)
      as (_ & Gpol & _ & _ & _ & Gpin & Glvl & Gq & _).
    assert (Fpin : pin_on d1 = pin_on d) by (subst d1; destruct d; reflexivity).
    assert (Fpol : polarity d1 = polarity d)
      by (subst d1; destruct d; reflexivity).
    destruct k as [|k].
    + cbn. rewrite Glvl. unfold phase_level, active_level, inactive_level.
      rewrite Fpin, Fpol. destruct (pin_on d); reflexivity.
    + cbn [nth_error] in *. rewrite (IH d2 k l Gq Hrest Hk).
      rewrite Gpin, Fpin. unfold active_level, inactive_level.
      rewrite Gpol, Fpol. rewrite Nat.even_succ, <- Nat.negb_even.
      destruct (Nat.even k), (pin_on d); reflexivity.
Qed.

Lemma levels_length lats :
  forall d,
    enqueued (timer d) = true ->
    Forall (fun l => 0 <= l) lats ->
    length (levels lats d) = length lats.
Proof.
  induction lats as [|l0 rest IH]; intros d Hq Hall; [reflexivity|].
  inversion Hall as [|x xs Hl0 Hrest]; subst x xs.
  pose proof (at_time_due l0 d Hq Hl0) as Hd.
  cbn [levels].
  destruct (timer_fire (at_time (expires (timer d) + l0) d))
    as [[d2 tr]|] eqn:Hf;
    [|rewrite (timer_fire_due _ Hd) in Hf; discriminate].
  destruct (timer_fire_frame _ _ _ Hf) as (_ & _ & _ & _ & _ & _ & _ & Gq & _).
  cbn. rewrite (IH d2 Gq Hrest). reflexivity.
Qed.

(** X6: however late the timer is served, no toggle is lost or repeated:
    over any number of consecutive firings of a queued timer the line is
    driven alternately to the active and the inactive level, starting
    with the active level when pin_on is clear, one write per firing. *)
Theorem levels_alternate :
  forall lats d,
    enqueued (timer d) = true ->
    Forall (fun l => 0 <= l) lats ->
    length (levels lats d) = length lats /\
    forall k l,
      nth_error lats k = Some l ->
      nth_error (levels lats d) k =
      Some (if xorb (Nat.even k) (pin_on d)
            then active_level d else inactive_level d).
Proof.
  intros lats d Hq Hall. split.
  - apply levels_length; assumption.
  - intros k l. apply levels_alternate_aux; assumption.
Qed.

Lemma levels_alternate_witness :
  enqueued (timer example_started) = true /\
  Forall (fun l => 0 <= l) [0; 50000000; 3; 999] /\
  nth_error (levels [0; 50000000; 3; 999] example_started) 2 = Some 1 /\
  nth_error (levels [0; 50000000; 3; 999] example_started) 3 = Some 0.
Proof.
  assert (Hall : Forall (fun l => 0 <= l) [0; 50000000; 3; 999])
    by (repeat constructor; vm_compute; discriminate).
  split; [reflexivity|]. split; [exact Hall|].
  destruct (levels_alternate [0; 50000000; 3; 999] example_started
              eq_refl Hall) as [_ H].
  split.
  - exact (H 2%nat 3 eq_refl).
  - exact (H 3%nat 999 eq_refl).
Defined.

(** ** Configure and the timer *)

Lemma fire_at_punctual l d :
  enqueued (timer d) = true ->
  0 <= l < phase_interval d ->
  base_resolution (timer d) <= phase_interval d ->
  exists d1 tr,
    timer_fire (at_time (expires (timer d) + l) d) = Some (d1, tr) /\
    expires (timer d1) = expires (timer d) + phase_interval d /\
    pin_on d1 = negb (pin_on d) /\
    on_time d1 = on_time d /\ off_time d1 = off_time d /\
    enqueued (timer d1) = true /\
    base_resolution (timer d1) = base_resolution (timer d).
Proof.
  intros Hq Hl Hres.
  pose proof (at_time_due l d Hq (proj1 Hl)) as Hd.
  destruct (at_time_frame (expires (timer d) + l) d)
    as (Fon & Foff & Fpin & Fexp & Fnow & Fres).
  remember (at_time (expires (timer d) + l) d) as d0 eqn:E0.
  destruct (timer_fire d0) as [[d1 tr]|] eqn:Hf;
    [|rewrite (timer_fire_due _ Hd) in Hf; discriminate].
  exists d1, tr. split; [reflexivity|].
  destruct (timer_fire_frame _ _ _ Hf)
    as (_ & _ & Gon & Goff & _ & Gpin & _ & Gq & _ & Gres).
  assert (Hiv : phase_interval d0 = phase_interval d)
    by (unfold phase_interval; rewrite Fpin, Fon, Foff; reflexivity).
  split.
  { rewrite <- Fexp, <- Hiv. eapply timer_fire_punctual; [exact Hf| |].
    - unfold latency. rewrite Fnow, Fexp, Hiv. lia.
    - rewrite Fres, Hiv. exact Hres. }
  repeat split; congruence.
Qed.

(** X7: after configure with 0 <= duty_ns <= period_ns, one full cycle of
    a queued timer, two consecutive firings each served less than the
    shorter phase after its expiry, moves the expected expiry by exactly
    period_ns and brings pin_on back to where it was; the first of the
    two phases lasts duty_ns or period_ns - duty_ns according to
    pin_on. *)
Theorem full_cycle_spans_period :
  forall cur duty_ns period_ns l1 l2 d,
    lock d = None -> enqueued (timer d) = true ->
    0 <= duty_ns <= period_ns -> period_ns <= INT_MAX ->
    base_resolution (timer d) <= Z.min duty_ns (period_ns - duty_ns) ->
    0 <= l1 < Z.min duty_ns (period_ns - duty_ns) ->
    0 <= l2 < Z.min duty_ns (period_ns - duty_ns) ->
    exists d0 tr0 d1 tr1 d2 tr2,
      run cur (gpio_pwm_config duty_ns period_ns) d = Some (0, d0, tr0) /\
      timer_fire (at_time (expires (timer d0) + l1) d0) = Some (d1, tr1) /\
      timer_fire (at_time (expires (timer d1) + l2) d1) = Some (d2, tr2) /\
      expires (timer d1) =
        expires (timer d) +
        (if pin_on d then period_ns - duty_ns else duty_ns) /\
      expires (timer d2) = expires (timer d) + period_ns /\
      pin_on d2 = pin_on d.
Proof.
  intros cur duty_ns period_ns l1 l2 d Hl Hq Hduty Hmax Hres H1 H2.
  eexists. eexists. rewrite run_config by assumption.
  rewrite to_uint_int_sub. unfold to_uint, UINT_MOD.
  rewrite (Z.mod_small duty_ns) by (unfold INT_MAX in *; lia).
  rewrite (Z.mod_small (period_ns - duty_ns)) by (unfold INT_MAX in *; lia).
  set (d0 := set_off_time (period_ns - duty_ns) (set_on_time duty_ns d)).
  assert (E0 : expires (timer d0) = expires (timer d))
    by (destruct d; reflexivity).
  assert (P0 : pin_on d0 = pin_on d) by (destruct d; reflexivity).
  assert (I0 : phase_interval d0 =
               if pin_on d then period_ns - duty_ns else duty_ns)
    by (destruct d; reflexivity).
  assert (R0 : base_resolution (timer d0) = base_resolution (timer d))
    by (destruct d; reflexivity).
  assert (Q0 : enqueued (timer d0) = true) by (destruct d; exact Hq).
  destruct (fire_at_punctual l1 d0 Q0) as (d1 & tr1 & F1 & Ex1 & Pin1 & On1 & Off1 & Q1 & R1).
  { rewrite I0. destruct (pin_on d); lia. }
  { rewrite R0, I0. destruct (pin_on d); lia. }
  assert (I1 : phase_interval d1 =
               if pin_on d then duty_ns else period_ns - duty_ns).
  { unfold phase_interval. rewrite Pin1, On1, Off1, P0.
    destruct d as [r p o a b l t g]; cbn. destruct o; reflexivity. }
  destruct (fire_at_punctual l2 d1 Q1) as (d2 & tr2 & F2 & Ex2 & Pin2 & _).
  { rewrite I1. destruct (pin_on d); lia. }
  { rewrite R1, R0, I1. destruct (pin_on d); lia. }
  exists d1, tr1, d2, tr2.
  split; [reflexivity|]. split; [exact F1|]. split; [exact F2|].
  split; [rewrite Ex1, E0, I0; reflexivity|].
  split.
  - rewrite Ex2, Ex1, E0, I0, I1. destruct (pin_on d); lia.
  - rewrite Pin2, Pin1, P0. apply negb_involutive.
Qed.

Lemma full_cycle_spans_period_witness :
  exists d0 tr0 d1 tr1 d2 tr2,
    run (Task 0) (gpio_pwm_config 3000000 10000000) example_started =
      Some (0, d0, tr0) /\
    timer_fire (at_time (expires (timer d0) + 1500) d0) = Some (d1, tr1) /\
    timer_fire (at_time (expires (timer d1) + 40) d1) = Some (d2, tr2) /\
    expires (timer d1) = 100 + 3000000 /\
    expires (timer d2) = 100 + 10000000.
Proof.
  destruct (full_cycle_spans_period (Task 0) 3000000 10000000 1500 40
              example_started)
    as (d0 & tr0 & d1 & tr1 & d2 & tr2 & H0 & H1 & H2 & H3 & H4 & _).
  - reflexivity.
  - reflexivity.
  - split; vm_compute; discriminate.
  - vm_compute. discriminate.
  - vm_compute. discriminate.
  - split; [vm_compute; discriminate|vm_compute; reflexivity].
  - split; [vm_compute; discriminate|vm_compute; reflexivity].
  - exists d0, tr0, d1, tr1, d2, tr2. repeat split; assumption.
Defined.

(** X8: whatever configure is given, on_time and off_time end up within
    the range of a 32-bit unsigned number and add up to period_ns modulo
    2^32.  For 0 <= duty_ns <= period_ns they add up to period_ns; for a
    duty above the period, 0 <= period_ns < duty_ns, on_time is duty_ns
    and off_time is period_ns - duty_ns + 2^32, so that one cycle lasts
    period_ns + 2^32 ns. *)
Theorem gpio_pwm_config_cycle_length :
  forall cur duty_ns period_ns d,
    lock d = None ->
    exists d' tr,
      run cur (gpio_pwm_config duty_ns period_ns) d = Some (0, d', tr) /\
      is_uint (on_time d') /\ is_uint (off_time d') /\
      (on_time d' + off_time d') mod 2 ^ 32 = period_ns mod 2 ^ 32 /\
      (0 <= duty_ns <= period_ns -> period_ns <= INT_MAX ->
       on_time d' + off_time d' = period_ns) /\
      (0 <= period_ns < duty_ns -> duty_ns <= INT_MAX ->
       on_time d' = duty_ns /\
       off_time d' = period_ns - duty_ns + 2 ^ 32 /\
       on_time d' + off_time d' = period_ns + 2 ^ 32).
Proof.
  intros cur duty_ns period_ns d Hl. eexists. eexists.
  rewrite run_config by assumption. split; [reflexivity|].
  rewrite to_uint_int_sub.
  replace (on_time (set_off_time ((period_ns - duty_ns) mod UINT_MOD)
                      (set_on_time (to_uint duty_ns) d)))
    with (duty_ns mod 2 ^ 32) by (destruct d; reflexivity).
  replace (off_time (set_off_time ((period_ns - duty_ns) mod UINT_MOD)
                       (set_on_time (to_uint duty_ns) d)))
    with ((period_ns - duty_ns) mod 2 ^ 32) by (destruct d; reflexivity).
  assert (Hpos : 0 < 2 ^ 32) by reflexivity.
  split; [apply Z.mod_pos_bound; exact Hpos|].
  split; [apply Z.mod_pos_bound; exact Hpos|].
  split.
  { rewrite <- Zplus_mod. f_equal. lia. }
  split.
  - intros H1 H2. unfold INT_MAX in *.
    rewrite !Z.mod_small by lia. lia.
  - intros H1 H2. unfold INT_MAX in *.
    assert (E : (period_ns - duty_ns) mod 2 ^ 32 =
                period_ns - duty_ns + 2 ^ 32).
    { symmetry. apply (Z.mod_unique _ _ (-1)); lia. }
    rewrite E, Z.mod_small by lia. lia.
Qed.

Lemma gpio_pwm_config_cycle_length_witness :
  lock (fresh 0 1) = None /\
  exists d' tr,
    run (Task 0) (gpio_pwm_config 7000 5000) (fresh 0 1) =
      Some (0, d', tr) /\
    on_time d' + off_time d' = 5000 + 2 ^ 32.
Proof.
  split; [reflexivity|].
  destruct (gpio_pwm_config_cycle_length (Task 0) 7000 5000 (fresh 0 1)
              eq_refl) as (d' & tr & H1 & _ & _ & _ & _ & H2).
  exists d', tr. split; [exact H1|].
  apply H2.
  - split; [vm_compute; discriminate|vm_compute; reflexivity].
  - vm_compute. discriminate.
Defined.

(** X9: a reconfiguration of a queued timer has no immediate effect: the
    timer, the line and pin_on stay as they are.  The new times are used
    from the next firing on: served within the new length of the phase it
    begins, that firing moves the expiry by the new on_time or off_time,
    counted from the expiry set under the old configuration. *)
Theorem reconfigure_applies_at_next_firing :
  forall cur duty_ns period_ns l d,
    lock d = None -> enqueued (timer d) = true ->
    base_resolution (timer d) <=
      (if pin_on d then (period_ns - duty_ns) mod 2 ^ 32
       else duty_ns mod 2 ^ 32) ->
    0 <= l < (if pin_on d then (period_ns - duty_ns) mod 2 ^ 32
              else duty_ns mod 2 ^ 32) ->
    exists d0 tr0 d1 tr1,
      run cur (gpio_pwm_config duty_ns period_ns) d = Some (0, d0, tr0) /\
      timer d0 = timer d /\ gpio_pwm d0 = gpio_pwm d /\
      pin_on d0 = pin_on d /\
      timer_fire (at_time (expires (timer d) + l) d0) = Some (d1, tr1) /\
      expires (timer d1) =
        expires (timer d) +
        (if pin_on d then (period_ns - duty_ns) mod 2 ^ 32
         else duty_ns mod 2 ^ 32).
Proof.
  intros cur duty_ns period_ns l d Hl Hq Hres Hlat.
  eexists. eexists. rewrite run_config by assumption.
  rewrite to_uint_int_sub. unfold to_uint, UINT_MOD.
  set (d0 := set_off_time ((period_ns - duty_ns) mod 2 ^ 32)
               (set_on_time (duty_ns mod 2 ^ 32) d)).
  assert (T0 : timer d0 = timer d) by (destruct d; reflexivity).
  assert (I0 : phase_interval d0 =
               if pin_on d then (period_ns - duty_ns) mod 2 ^ 32
               else duty_ns mod 2 ^ 32)
    by (destruct d; reflexivity).
  destruct (fire_at_punctual l d0) as (d1 & tr1 & F1 & Ex1 & _).
  { rewrite T0. exact Hq. }
  { rewrite I0. exact Hlat. }
  { rewrite T0, I0. exact Hres. }
  exists d1, tr1. split; [reflexivity|]. split; [exact T0|].
  split; [destruct d; reflexivity|]. split; [destruct d; reflexivity|].
  rewrite T0 in F1, Ex1. rewrite I0 in Ex1. split; assumption.
Qed.

Lemma reconfigure_applies_at_next_firing_witness :
  exists d0 tr0 d1 tr1,
    run (Task 0) (gpio_pwm_config 500 2000) example_started =
      Some (0, d0, tr0) /\
    timer d0 = timer example_started /\
    timer_fire (at_time (expires (timer example_started) + 20) d0) =
      Some (d1, tr1) /\
    expires (timer d1) = 100 + 500.
Proof.
  destruct (reconfigure_applies_at_next_firing (Task 0) 500 2000 20
              example_started)
    as (d0 & tr0 & d1 & tr1 & H0 & H1 & _ & _ & H2 & H3).
  - reflexivity.
  - reflexivity.
  - vm_compute. discriminate.
  - split; [vm_compute; discriminate|vm_compute; reflexivity].
  - exists d0, tr0, d1, tr1. repeat split; assumption.
Defined.

(** X10: configure and set_polarity act on separate fields: in either
    order they end in the same record, and of two configurations in a row
    only the second is kept. *)
Theorem configure_and_polarity_compose :
  forall cur duty_ns period_ns pol d,
    lock d = None ->
    exists dc tc dp tp dcp tcp dpc tpc,
      run cur (gpio_pwm_config duty_ns period_ns) d = Some (0, dc, tc) /\
      run cur (gpio_pwm_set_polarity pol) d = Some (0, dp, tp) /\
      run cur (gpio_pwm_set_polarity pol) dc = Some (0, dcp, tcp) /\
      run cur (gpio_pwm_config duty_ns period_ns) dp = Some (0, dpc, tpc) /\
      dcp = dpc /\
      (forall duty0 period0 d0 t0,
         run cur (gpio_pwm_config duty0 period0) d = Some (0, d0, t0) ->
         run cur (gpio_pwm_config duty_ns period_ns) d0 = Some (0, dc, tc)).
Proof.
  intros cur duty_ns period_ns pol d Hl.
  do 8 eexists.
  split; [apply run_config; assumption|].
  split; [apply run_set_polarity; assumption|].
  split; [apply run_set_polarity; destruct d; assumption|].
  split; [apply run_config; destruct d; assumption|].
  split; [destruct d; reflexivity|].
  intros duty0 period0 d0 t0 H0.
  rewrite run_config in H0 by assumption. inversion H0; subst d0 t0.
  rewrite run_config by (destruct d; assumption).
  destruct d; reflexivity.
Qed.

Lemma configure_and_polarity_compose_witness :
  lock (fresh 0 1) = None /\
  exists dc tc dcp tcp dp tp,
    run (Task 0) (gpio_pwm_config 1 4) (fresh 0 1) = Some (0, dc, tc) /\
    run (Task 0) (gpio_pwm_set_polarity PWM_POLARITY_INVERSED) dc =
      Some (0, dcp, tcp) /\
    run (Task 0) (gpio_pwm_set_polarity PWM_POLARITY_INVERSED) (fresh 0 1) =
      Some (0, dp, tp) /\
    run (Task 0) (gpio_pwm_config 1 4) dp =
      Some (0, dcp, [MutexLock; StoreU ON_TIME 1; StoreU OFF_TIME 3;
                     MutexUnlock]).
Proof.
  split; [reflexivity|].
  destruct (configure_and_polarity_compose (Task 0) 1 4
              PWM_POLARITY_INVERSED (fresh 0 1) eq_refl)
    as (dc & tc & dp & tp & dcp & tcp & dpc & tpc & H1 & H2 & H3 & H4 & H5 & _).
  exists dc, tc, dcp, tcp, dp, tp.
  split; [exact H1|]. split; [exact H3|]. split; [exact H2|].
  rewrite H5. rewrite H4. f_equal. f_equal.
  assert (E : run (Task 0) (gpio_pwm_config 1 4) dp = Some (0, dpc, tpc))
    by exact H4.
  assert (Ep : dp = set_polarity true (fresh 0 1)).
  { assert (E2 : run (Task 0) (gpio_pwm_set_polarity PWM_POLARITY_INVERSED)
                   (fresh 0 1) = Some (0, dp, tp)) by exact H2.
    vm_compute in E2. inversion E2. reflexivity. }
  rewrite Ep in E. vm_compute in E. inversion E. reflexivity.
Defined.

(** ** Operations in sequence *)

(** X11: a restart always begins a cycle afresh.  Wherever a running
    channel was in its cycle, disable leaves the line at the inactive
    level with pin_on clear; the enable that follows writes nothing to the
    line; and the first firing after it, however late it is served and
    whether enable still holds the mutex or has released it, drives the
    line to the active level and sets pin_on.  That firing can come
    before enable returns, which then returns 0 with the line already
    active. *)
Theorem restart_begins_with_active_phase :
  forall cur d dt w,
    lock d = None -> is_running d = true -> 0 <= dt ->
    exists d1 tr1 d2 tr2 d3 tr3,
      run cur gpio_pwm_disable d = Some (tt, d1, tr1) /\
      gpio_pwm d1 = inactive_level d /\ pin_on d1 = false /\
      run cur gpio_pwm_enable d1 = Some (0, d2, tr2) /\
      existsb is_pin_write tr2 = false /\
      timer_fire (advance dt (set_lock w d2)) = Some (d3, tr3) /\
      gpio_pwm d3 = active_level d /\
      pin_on d3 = true /\ is_running d3 = true /\
      exists cfg,
        steps (mk_config d1 [pwm_call OpEnable] None) cfg /\
        tasks cfg = [Ret 0] /\ irq cfg = None /\
        gpio_pwm (shared cfg) = active_level d /\
        pin_on (shared cfg) = true.
Proof.
  intros cur d dt w Hl Hr Hdt.
  set (d1 := set_is_running false
               (set_pin_on false
                  (set_gpio_pwm (inactive_level d)
                     (set_timer (set_enqueued false (timer d)) d)))).
  set (d2 := set_timer (hrtimer_start 0 (timer d1)) (set_is_running true d1)).
  assert (Hd : hrtimer_due (advance dt (set_lock w d2)) = true).
  { destruct d as [r p o a b l [e q n s] g]. unfold hrtimer_due. cbn.
    apply Z.leb_le. lia. }
  exists d1. eexists. exists d2. eexists. eexists. eexists.
  split; [apply run_disable_running; assumption|].
  split; [destruct d; reflexivity|]. split; [destruct d; reflexivity|].
  split; [apply run_enable_idle; destruct d; cbn in *; auto|].
  split; [reflexivity|].
  split; [apply (timer_fire_due _ Hd)|].
  split; [destruct d as [r p o a b l [e q n s] g]; destruct p; reflexivity|].
  split; [destruct d; reflexivity|]. split; [destruct d; reflexivity|].
  destruct (enable_served_early d1) as (cfg & H1 & H2 & H3 & _ & H4 & H5 & _).
  - destruct d; exact Hl.
  - destruct d; reflexivity.
  - destruct d; reflexivity.
  - exists cfg. split; [exact H1|]. split; [exact H2|]. split; [exact H3|].
    split; [|exact H5]. rewrite H4. destruct d; reflexivity.
Qed.

Lemma restart_begins_with_active_phase_witness :
  exists d1 tr1 d2 tr2 d3 tr3,
    run (Task 0) gpio_pwm_disable
      (set_pin_on true (set_gpio_pwm 1 example_started)) =
      Some (tt, d1, tr1) /\
    gpio_pwm d1 = 0 /\
    run (Task 0) gpio_pwm_enable d1 = Some (0, d2, tr2) /\
    timer_fire (advance 7 (set_lock (Some (Task 0)) d2)) = Some (d3, tr3) /\
    gpio_pwm d3 = 1.
Proof.
  destruct (restart_begins_with_active_phase (Task 0)
              (set_pin_on true (set_gpio_pwm 1 example_started)) 7
              (Some (Task 0%nat)))
    as (d1 & tr1 & d2 & tr2 & d3 & tr3 & H1 & H2 & _ & H3 & _ & H4 & H5 & _).
  - reflexivity.
  - reflexivity.
  - vm_compute. discriminate.
  - exists d1, tr1, d2, tr2, d3, tr3. repeat split; assumption.
Defined.

(** X12: which operation touches what.  A call writes the line only if it
    is a disable of a running channel, which is also the only call that
    cancels the timer; it starts the timer only if it is an enable of a
    stopped channel; configure and set_polarity do neither.  Every call
    returns 0, except enable on a running channel, which returns -EBUSY;
    and every call returns with the mutex released. *)
Theorem pwm_call_side_effects :
  forall cur o d r d' tr,
    run cur (pwm_call o) d = Some (r, d', tr) ->
    (existsb is_pin_write tr = true <->
     o = OpDisable /\ is_running d = true) /\
    (existsb is_timer_cancel tr = true <->
     o = OpDisable /\ is_running d = true) /\
    (existsb is_timer_start tr = true <->
     o = OpEnable /\ is_running d = false) /\
    (r = - EBUSY <-> o = OpEnable /\ is_running d = true) /\
    (r <> - EBUSY -> r = 0) /\
    (existsb is_pin_write tr = false -> gpio_pwm d' = gpio_pwm d) /\
    lock d' = None.
Proof.
  intros cur o d r d' tr Hrun.
  destruct (lock d) as [w|] eqn:Hl.
  { rewrite run_blocked in Hrun by congruence. discriminate. }
  destruct o as [duty period|pol| |].
  - unfold pwm_call in Hrun. rewrite run_config in Hrun by assumption.
    inversion Hrun; subst; clear Hrun. cbn.
    repeat split; intros; try discriminate; try tauto;
      try (destruct d; cbn in *; congruence);
      destruct H; discriminate.
  - unfold pwm_call in Hrun. rewrite run_set_polarity in Hrun by assumption.
    inversion Hrun; subst; clear Hrun. cbn.
    repeat split; intros; try discriminate; try tauto;
      try (destruct d; cbn in *; congruence);
      destruct H; discriminate.
  - unfold pwm_call in Hrun. destruct (is_running d) eqn:Hr.
    + rewrite run_enable_busy in Hrun by assumption.
      inversion Hrun; subst; clear Hrun. cbn.
      repeat split; intros; try discriminate; try tauto; try congruence;
        try (destruct H; discriminate).
    + rewrite run_enable_idle in Hrun by assumption.
      inversion Hrun; subst; clear Hrun. cbn.
      repeat split; intros; try discriminate; try tauto;
        try (destruct d; cbn in *; congruence);
        destruct H; discriminate.
  - rewrite run_call_disable in Hrun. destruct (is_running d) eqn:Hr.
    + rewrite run_disable_running in Hrun by assumption.
      inversion Hrun; subst; clear Hrun. cbn.
      repeat split; intros; try discriminate; try tauto;
        try (destruct d; cbn in *; congruence);
        destruct H; discriminate.
    + rewrite run_disable_idle in Hrun by assumption.
      inversion Hrun; subst; clear Hrun. cbn.
      repeat split; intros; try discriminate; try tauto; try congruence;
        destruct H; discriminate.
Qed.

Lemma pwm_call_side_effects_witness :
  exists r d' tr,
    run (Task 0) (pwm_call OpDisable) example_started = Some (r, d', tr) /\
    existsb is_pin_write tr = true /\ existsb is_timer_start tr = false /\
    r = 0.
Proof.
  destruct (run (Task 0) (pwm_call OpDisable) example_started)
    as [[[r d'] tr]|] eqn:Hrun; [|discriminate Hrun].
  exists r, d', tr. split; [reflexivity|].
  destruct (pwm_call_side_effects (Task 0) OpDisable example_started
              r d' tr Hrun) as (H1 & _ & H3 & H4 & H5 & _).
  split; [apply H1; split; reflexivity|].
  split.
  - destruct (existsb is_timer_start tr) eqn:E; [|reflexivity].
    destruct (proj1 H3 eq_refl) as [H _]. discriminate H.
  - apply H5. intros E. destruct (proj1 H4 E) as [H _]. discriminate H.
Defined.

(** ** What every reachable state satisfies *)

Lemma well_formed_step d d' :
  lock d = None ->
  is_uint (on_time d) /\ is_uint (off_time d) /\
  (gpio_pwm d = 0 \/ gpio_pwm d = 1) ->
  op_step d d' ->
  is_uint (on_time d') /\ is_uint (off_time d') /\
  (gpio_pwm d' = 0 \/ gpio_pwm d' = 1).
Proof.
  intros Hl (Hon & Hoff & Hg) Hs.
  destruct Hs as [cur o d r d' tr Hrun|d d' tr Hf|dt d Hdt].
  - destruct o as [duty period|pol| |].
    + unfold pwm_call in Hrun. rewrite run_config in Hrun by assumption.
      inversion Hrun; subst; clear Hrun.
      destruct d; cbn in *.
      split; [apply to_uint_range|]. split; [apply to_uint_range|exact Hg].
    + unfold pwm_call in Hrun.
      rewrite run_set_polarity in Hrun by assumption.
      inversion Hrun; subst; clear Hrun. destruct d; cbn in *. auto.
    + unfold pwm_call in Hrun. destruct (is_running d) eqn:Hr.
      * rewrite run_enable_busy in Hrun by assumption.
        inversion Hrun; subst; auto.
      * rewrite run_enable_idle in Hrun by assumption.
        inversion Hrun; subst; clear Hrun. destruct d; cbn in *. auto.
    + rewrite run_call_disable in Hrun. destruct (is_running d) eqn:Hr.
      * rewrite run_disable_running in Hrun by assumption.
        inversion Hrun; subst; clear Hrun.
        destruct d as [r0 p o a b l t g]; cbn in *.
        split; [exact Hon|]. split; [exact Hoff|].
        unfold inactive_level; cbn. destruct p; auto.
      * rewrite run_disable_idle in Hrun by assumption.
        inversion Hrun; subst; auto.
  - destruct (timer_fire_frame _ _ _ Hf)
      as (_ & _ & H3 & H4 & _ & _ & H7 & _).
    rewrite H3, H4, H7. split; [exact Hon|]. split; [exact Hoff|].
    unfold phase_level, active_level, inactive_level.
    destruct (pin_on d), (polarity d); auto.
  - destruct d as [r p o a b l [e q n s] g]; cbn in *. auto.
Qed.

(** X13: in every state a channel reaches after a successful request,
    on_time and off_time are within the range of a 32-bit unsigned number
    (never negative), the line holds 0 or 1, the mutex is free between
    operations, and pin_on is only ever set while the channel runs. *)
Theorem reachable_well_formed :
  forall d,
    reachable d ->
    0 <= on_time d < 2 ^ 32 /\ 0 <= off_time d < 2 ^ 32 /\
    (gpio_pwm d = 0 \/ gpio_pwm d = 1) /\
    lock d = None /\
    (pin_on d = true -> is_running d = true).
Proof.
  intros d Hr.
  assert (H : is_uint (on_time d) /\ is_uint (off_time d) /\
              (gpio_pwm d = 0 \/ gpio_pwm d = 1)).
  { induction Hr as [env k k' d Hreq Hd|d d' Hr IH Hs].
    - destruct (gpio_pwm_request_success env k k' Hreq) as (_ & _ & Hc & _).
      rewrite Hc in Hd. inversion Hd; subst. cbn.
      unfold is_uint, UINT_MOD. cbn. repeat split; try lia; auto.
    - apply (well_formed_step d d'); [|exact IH|exact Hs].
      exact (proj1 (reachable_chan_inv d Hr)). }
  destruct H as (Hon & Hoff & Hg).
  destruct (reachable_chan_inv d Hr) as (Hl & _ & Hp).
  split; [exact Hon|]. split; [exact Hoff|]. split; [exact Hg|].
  split; [exact Hl|].
  intros Hpin. destruct (is_running d) eqn:E; [reflexivity|].
  rewrite (Hp eq_refl) in Hpin. discriminate.
Qed.

Lemma reachable_well_formed_witness :
  reachable example_started /\
  0 <= on_time example_started < 2 ^ 32 /\
  0 <= off_time example_started < 2 ^ 32.
Proof.
  split; [exact reachable_example_started|].
  destruct (reachable_well_formed example_started reachable_example_started)
    as (H1 & H2 & _).
  split; assumption.
Defined.

(** ** Acquiring and releasing, continued *)

(** X14: without high-resolution timers request behaves as with them, and
    only adds a warning to the log when it succeeds: the value returned,
    the record attached to the pwm device, the memory held and the claim
    on the line are the same. *)
Theorem low_resolution_only_warns :
  forall env k,
    fst (gpio_pwm_request (with_hres false env) k) =
      fst (gpio_pwm_request (with_hres true env) k) /\
    chip_data (snd (gpio_pwm_request (with_hres false env) k)) =
      chip_data (snd (gpio_pwm_request (with_hres true env) k)) /\
    kmem_live (snd (gpio_pwm_request (with_hres false env) k)) =
      kmem_live (snd (gpio_pwm_request (with_hres true env) k)) /\
    gpio_claimed (snd (gpio_pwm_request (with_hres false env) k)) =
      gpio_claimed (snd (gpio_pwm_request (with_hres true env) k)) /\
    dmesg (snd (gpio_pwm_request (with_hres false env) k)) =
      dmesg (snd (gpio_pwm_request (with_hres true env) k)) ++
      (if fst (gpio_pwm_request (with_hres true env) k) =? 0
       then [WARN_NO_HRES] else []).
Proof.
  intros env k. unfold gpio_pwm_request, kzalloc, with_hres. cbn.
  destruct (kzalloc_ok env).
  - destruct (IS_ERR (gpiod_get env)) eqn:E.
    + cbn. unfold IS_ERR, PTR_ERR in *. apply andb_prop in E.
      destruct E as [_ E]. apply Z.ltb_lt in E.
      destruct (Z.eqb_spec (gpiod_get env) 0) as [H0|H0]; [lia|].
      rewrite app_nil_r. repeat split; reflexivity.
    + cbn. repeat split; reflexivity.
  - cbn. rewrite app_nil_r. repeat split; reflexivity.
Qed.



Lemma chan_inv_op_steps d d' : chan_inv d -> op_steps d d' -> chan_inv d'.
Proof.
  intros H Hs. induction Hs as [d|d d1 d2 _ IH Hstep].
  - exact H.
  - eapply chan_inv_step; [apply IH; exact H|exact Hstep].
Qed.

(** X16: request and free balance.  Whatever calls, firings and lapses of
    time lie between a successful request and free, free succeeds and
    leaves as many records allocated as there were before the request,
    with the line released. *)
Theorem request_free_balanced :
  forall cur env k k0 d0 d,
    gpio_pwm_request env k = (0, k0) ->
    chip_data k0 = Some d0 ->
    op_steps d0 d ->
    exists k',
      gpio_pwm_free cur (with_chip_data d k0) = Some k' /\
      kmem_live k' = kmem_live k /\
      gpio_claimed k' = false.
Proof.
  intros cur env k k0 d0 d Hreq Hd0 Hs.
  destruct (gpio_pwm_request_success env k k0 Hreq) as (_ & _ & Hc & Hm & _).
  rewrite Hc in Hd0. inversion Hd0; subst d0.
  pose proof (chan_inv_op_steps _ _ (chan_inv_fresh _ _) Hs) as (Hl & _).
  unfold gpio_pwm_free, with_chip_data. cbn [chip_data].
  destruct (is_running d) eqn:Hr.
  - rewrite run_disable_running by assumption.
    eexists. split; [reflexivity|]. cbn. rewrite Hm. auto.
  - rewrite run_disable_idle by assumption.
    eexists. split; [reflexivity|]. cbn. rewrite Hm. auto.
Qed.

Lemma request_free_balanced_witness :
  exists k0 k',
    gpio_pwm_request (mk_request_env true 1 true 100 1)
      (mk_kernel 0 false None []) = (0, k0) /\
    gpio_pwm_free (Task 0) (with_chip_data example_started k0) = Some k' /\
    kmem_live k' = 0%nat /\ gpio_claimed k' = false.
Proof.
  assert (Hreq : gpio_pwm_request (mk_request_env true 1 true 100 1)
                   (mk_kernel 0 false None []) =
                 (0, mk_kernel 1 true (Some (fresh 100 1)) []))
    by reflexivity.
  assert (Hs : op_steps (fresh 100 1) example_started).
  { apply (op_steps_trans _ example_stopped).
    - apply (op_steps_trans _ (fresh 100 1)); [apply op_steps_refl|].
      apply (op_step_call (Task 0) (OpConfig 3000000 10000000)
               (fresh 100 1) 0 example_stopped
               [MutexLock; StoreU ON_TIME 3000000; StoreU OFF_TIME 7000000;
                MutexUnlock]).
      reflexivity.
    - apply (op_step_call (Task 0) OpEnable example_stopped 0
               example_started
               [MutexLock; LoadB IS_RUNNING; StoreB IS_RUNNING true;
                HrtimerStart 0; MutexUnlock]).
      reflexivity. }
  destruct (request_free_balanced (Task 0) _ _ _ _ example_started
              Hreq eq_refl Hs) as (k' & H1 & H2 & H3).
  exists (mk_kernel 1 true (Some (fresh 100 1)) []), k'.
  split; [exact Hreq|]. split; [exact H1|]. split; [exact H2|exact H3].
Defined.

(** ** Probe and remove *)

(** X17: probe has three outcomes.  It returns -ENOMEM when the chip
    cannot be allocated, and then changes nothing; -ENODEV whenever
    pwmchip_add reports an error, whatever that error is, which it only
    logs, leaving no chip registered and the driver data unset; and 0
    otherwise, with a chip of exactly one channel and a base left to the
    pwm core (-1) kept as driver data. *)
Theorem gpio_pwm_probe_outcome :
  forall env pdev,
    (devm_kzalloc_ok env = false ->
     gpio_pwm_probe env pdev = (- ENOMEM, pdev)) /\
    (devm_kzalloc_ok env = true -> pwmchip_add_ret env < 0 ->
     fst (gpio_pwm_probe env pdev) = - ENODEV /\
     drvdata (snd (gpio_pwm_probe env pdev)) = drvdata pdev /\
     pwm_chips (snd (gpio_pwm_probe env pdev)) = pwm_chips pdev /\
     pdev_log (snd (gpio_pwm_probe env pdev)) =
       pdev_log pdev ++ [ERR_ADD_CHIP (pwmchip_add_ret env)]) /\
    (devm_kzalloc_ok env = true -> 0 <= pwmchip_add_ret env ->
     fst (gpio_pwm_probe env pdev) = 0 /\
     drvdata (snd (gpio_pwm_probe env pdev)) =
       Some (mk_pwm_chip (pdev_id pdev) gpio_pwm_ops (-1) 1) /\
     pdev_log (snd (gpio_pwm_probe env pdev)) = pdev_log pdev /\
     (pwmchip_add_ret env = 0 ->
      pwm_chips (snd (gpio_pwm_probe env pdev)) =
        pwm_chips pdev ++ [mk_pwm_chip (pdev_id pdev) gpio_pwm_ops (-1) 1])) /\
    (fst (gpio_pwm_probe env pdev) = 0 \/
     fst (gpio_pwm_probe env pdev) = - ENOMEM \/
     fst (gpio_pwm_probe env pdev) = - ENODEV).
Proof.
  intros env pdev. unfold gpio_pwm_probe, pwmchip_add.
  destruct (devm_kzalloc_ok env); cbn [negb].
  - destruct (Z.ltb_spec (pwmchip_add_ret env) 0) as [Hneg|Hpos].
    + destruct (Z.eqb_spec (pwmchip_add_ret env) 0) as [H0|H0]; [lia|].
      cbn. split; [intros H; discriminate H|].
      split; [intros _ _; repeat split; reflexivity|].
      split; [intros _ H; lia|]. auto.
    + split; [intros H; discriminate H|].
      split; [intros _ H; lia|].
      split; [|cbn; auto].
      intros _ _. cbn.
      destruct (Z.eqb_spec (pwmchip_add_ret env) 0) as [H0|H0]; cbn.
      * repeat split; reflexivity.
      * repeat split; try reflexivity. intros H; contradiction.
  - split; [intros _; reflexivity|].
    split; [intros H; discriminate H|].
    split; [intros H; discriminate H|]. cbn. auto.
Qed.

Lemma gpio_pwm_probe_outcome_witness :
  fst (gpio_pwm_probe (mk_probe_env true (- EBUSY) 0)
         (mk_platform_device 7 0 None [] [])) = - ENODEV /\
  pdev_log (snd (gpio_pwm_probe (mk_probe_env true (- EBUSY) 0)
                   (mk_platform_device 7 0 None [] []))) =
    [ERR_ADD_CHIP (- EBUSY)].
Proof.
  destruct (proj1 (proj2 (gpio_pwm_probe_outcome
                            (mk_probe_env true (- EBUSY) 0)
                            (mk_platform_device 7 0 None [] [])))
              eq_refl) as (H1 & _ & _ & H2).
  - vm_compute. reflexivity.
  - split; [exact H1|exact H2].
Defined.

Lemma filter_other_devices id (chips : list pwm_chip) :
  (forall c, In c chips -> chip_dev c <> id) ->
  filter (fun c => negb (Nat.eqb (chip_dev c) id)) chips = chips.
Proof.
  induction chips as [|c chips IH]; intros H; [reflexivity|].
  cbn. destruct (Nat.eqb_spec (chip_dev c) id) as [E|E].
  - exfalso. apply (H c); [left; reflexivity|exact E].
  - cbn. f_equal. apply IH. intros c' Hc'. apply H. right. exact Hc'.
Qed.

(** X18: remove hands to pwmchip_remove the very chip probe registered and
    returns its answer unchanged.  After a successful probe on a device
    that had no chip, a remove answered with 0 leaves the list of
    registered chips as it was before the probe; answered with an error
    it leaves the chip registered. *)
Theorem probe_then_remove :
  forall env env' pdev pdev1,
    gpio_pwm_probe env pdev = (0, pdev1) ->
    pwmchip_add_ret env = 0 ->
    (forall c, In c (pwm_chips pdev) -> chip_dev c <> pdev_id pdev) ->
    exists pdev2,
      gpio_pwm_remove env' pdev1 = Some (pwmchip_remove_ret env', pdev2) /\
      (pwmchip_remove_ret env' = 0 -> pwm_chips pdev2 = pwm_chips pdev) /\
      (pwmchip_remove_ret env' <> 0 ->
       pdev2 = pdev1 /\
       In (mk_pwm_chip (pdev_id pdev) gpio_pwm_ops (-1) 1)
         (pwm_chips pdev2)).
Proof.
  intros env env' pdev pdev1 Hp Hadd Hfree.
  unfold gpio_pwm_probe, pwmchip_add in Hp. rewrite Hadd in Hp.
  destruct (devm_kzalloc_ok env); cbn in Hp; [|inversion Hp].
  inversion Hp; subst pdev1; clear Hp.
  unfold gpio_pwm_remove, pwmchip_remove. cbn.
  eexists. split; [reflexivity|].
  destruct (Z.eqb_spec (pwmchip_remove_ret env') 0) as [H0|H0].
  - split; [|intros H; contradiction].
    intros _. cbn. rewrite filter_app. cbn.
    rewrite Nat.eqb_refl. cbn. rewrite app_nil_r.
    apply filter_other_devices. exact Hfree.
  - split; [intros H; contradiction|].
    intros _. split; [reflexivity|]. cbn.
    apply in_or_app. right. left. reflexivity.
Qed.

Lemma probe_then_remove_witness :
  exists pdev1 pdev2,
    gpio_pwm_probe (mk_probe_env true 0 0)
      (mk_platform_device 7 0 None [] []) = (0, pdev1) /\
    gpio_pwm_remove (mk_probe_env true 0 0) pdev1 = Some (0, pdev2) /\
    pwm_chips pdev2 = [].
Proof.
  destruct (probe_then_remove (mk_probe_env true 0 0) (mk_probe_env true 0 0)
              (mk_platform_device 7 0 None [] [])
              (snd (gpio_pwm_probe (mk_probe_env true 0 0)
                      (mk_platform_device 7 0 None [] []))))
    as (pdev2 & H1 & H2 & _).
  - reflexivity.
  - reflexivity.
  - intros c H. destruct H.
  - eexists. exists pdev2. split; [reflexivity|].
    split; [exact H1|]. exact (H2 eq_refl).
Defined.

(** ** No deadlock between disable and the callback *)

Lemma exec_total cur c d :
  c <> MutexLock -> exists a d', exec cur c d = Some (a, d').
Proof.
  intros Hc. destruct c; try congruence; cbn; try (eexists; eexists; reflexivity).
  destruct (hrtimer_forward_now interval (timer d)) as [n t].
  eexists. eexists. reflexivity.
Qed.

(** X19: the task that holds the mutex can always go on.  In every
    configuration tasks and the timer interrupt reach, the holder's next
    action is enabled, unless that action is hrtimer_cancel and a callback
    is in progress; and then the callback, which never waits for the
    mutex, can itself take its next action or return.  Either way the
    configuration has a step. *)
Theorem mutex_holder_can_proceed :
  forall d n cfg i,
    reachable d ->
    steps (init_config d n) cfg ->
    lock (shared cfg) = Some (Task i) ->
    (exists c k,
       nth_error (tasks cfg) i = Some (Vis c k) /\
       ((may_proceed c cfg /\
         exists a d', exec (Task i) c (shared cfg) = Some (a, d')) \/
        (c = HrtimerCancel /\
         exists p,
           irq cfg = Some p /\
           (idle p \/
            exists c' k' a d',
              p = Vis c' k' /\
              exec HardIrq c' (shared cfg) = Some (a, d'))))) /\
    exists cfg', step cfg cfg'.
Proof.
  intros d n cfg i Hr Hs Hl.
  destruct (reachable_chan_inv d Hr) as (Hl0 & Hq & _).
  pose proof (race_inv_steps _ _ (race_inv_init d n Hl0 Hq) Hs) as [Hirq H].
  rewrite Hl in H. destruct H as [(p & Hp & Hsafe) _].
  destruct p as [r|c k]; [destruct Hsafe|].
  assert (Hc : c <> MutexLock).
  { cbn [cs_safe] in Hsafe.
    destruct Hsafe as [[Hacc _]|[Hc _]]; intros E; subst c; discriminate. }
  destruct (exec_total (Task i) c (shared cfg) Hc) as (a & d' & He).
  assert (Hcases : may_proceed c cfg \/
                   (c = HrtimerCancel /\ exists p, irq cfg = Some p)).
  { unfold may_proceed. destruct (irq cfg) as [p|].
    - destruct c; try (left; intros E; discriminate E).
      right. split; [reflexivity|]. exists p. reflexivity.
    - left. intros _. reflexivity. }
  destruct Hcases as [Hm|[Ec [p Hp']]].
  - split.
    + exists c, k. split; [exact Hp|]. left. split; [exact Hm|].
      exists a, d'. exact He.
    + eexists. exact (step_task i c k a d' cfg Hp Hm He).
  - pose proof (Hirq p Hp') as Hok.
    destruct p as [r|c' k'].
    + split.
      * exists c, k. split; [exact Hp|]. right. split; [exact Ec|].
        exists (Ret r). split; [exact Hp'|]. left. exact I.
      * eexists. exact (step_irq_exit r cfg Hp').
    + destruct Hok as [Hcmd _].
      assert (Hc' : c' <> MutexLock)
        by (intros E; subst c'; discriminate Hcmd).
      destruct (exec_total HardIrq c' (shared cfg) Hc') as (a' & d'' & He').
      split.
      * exists c, k. split; [exact Hp|]. right. split; [exact Ec|].
        exists (Vis c' k'). split; [exact Hp'|]. right.
        exists c', k', a', d''. split; [reflexivity|exact He'].
      * eexists. exact (step_irq c' k' a' d'' cfg Hp' He').
Qed.

Lemma mutex_holder_can_proceed_witness :
  reachable example_started /\
  steps (init_config example_started 1) example_race /\
  lock (shared example_race) = Some (Task 0) /\
  exists cfg', step example_race cfg'.
Proof.
  assert (Hs : steps (init_config example_started 1) example_race).
  { apply (steps_trans _ example_locked); [exact steps_example_locked|].
    apply (step_irq_enter example_locked); reflexivity. }
  split; [exact reachable_example_started|].
  split; [exact Hs|]. split; [reflexivity|].
  exact (proj2 (mutex_holder_can_proceed example_started 1%nat example_race
                  0%nat reachable_example_started Hs eq_refl)).
Defined.
